(** * GitHubCodeBrowser: a shallow embedding of [code-browser.js]

    The component of [src/index/code-browser.js] is one class,
    [GitHubCodeBrowser].  This development embeds

    - the tree builder ([buildFileTree]), with the JavaScript objects it
      uses as maps, including the properties such an object inherits;
    - the ordering of the entries of one level ([createTreeElement]);
    - the controller: [fetchRepositoryTree], [loadRepository],
      [selectFile], [fetchFileContent], the constructor and the
      [DOMContentLoaded] handler, as state-passing functions over the
      instance fields and a log of the requests sent.

    JavaScript strings are modelled as [string], integers as [Z].  An
    answer of the API has the shape its endpoint documents, or cannot be
    read.  The asynchronous methods are run one after the other, each to
    its end: the class starts no two of them at once by itself, and the
    overlap of two selections made by the user is left out. *)

From Stdlib Require Import String Ascii List ZArith Lia Bool DecimalString.
From Stdlib Require Import Sorting.Sorted Sorting.Permutation OrderedTypeEx.
From Equations Require Import Equations.
From Equations.Prop Require Import Logic.
Import ListNotations.

Open Scope string_scope.
Open Scope list_scope.

(** ** Strings: [split], [join], [includes] *)

Module Str.

(** [s.split(sep)] for a one-character separator: never the empty list. *)
Fixpoint split (sep : ascii) (s : string) : list string :=
  match s with
  | EmptyString => [EmptyString]
  | String c s' =>
      if Ascii.eqb c sep then EmptyString :: split sep s'
      else match split sep s' with
           | h :: t => String c h :: t
           | [] => [String c EmptyString]
           end
  end.

(** [parts.join(sep)]. *)
Fixpoint join (sep : ascii) (parts : list string) : string :=
  match parts with
  | [] => EmptyString
  | [p] => p
  | p :: rest => p ++ String sep (join sep rest)
  end.

(** [s.startsWith(pat)]. *)
Fixpoint startsWith (s pat : string) : bool :=
  match pat, s with
  | EmptyString, _ => true
  | String _ _, EmptyString => false
  | String c pat', String d s' => Ascii.eqb c d && startsWith s' pat'
  end.

(** [s.includes(pat)]: [pat] occurs in [s] at some position. *)
Fixpoint includes (s pat : string) : bool :=
  startsWith s pat ||
  match s with
  | EmptyString => false
  | String _ s' => includes s' pat
  end.

End Str.

(** ** The data of the tree builder *)

(** One entry of the flat listing: [{ type, path, sha, size }]. *)
Record item := { type : string; path : string; sha : string; size : Z }.

(** A tree node is [{ type: 'file', path, sha, size }] or
    [{ type: 'folder', children }].  [children], like the root [tree], is a
    plain object literal [{}] used as a map from names to nodes: [props] are
    its own properties in creation order, [proto] is its prototype, [None]
    standing for [Object.prototype] and [Some (p, s, z)] for a file object
    installed by an assignment to [__proto__]. *)
Inductive node : Type :=
| file (p s : string) (z : Z)
| folder (children : obj)
with obj : Type :=
| object (proto : option (string * string * Z)) (props : list (string * node)).

Definition proto_of (o : obj) : option (string * string * Z) :=
  match o with object pr _ => pr end.

Definition props_of (o : obj) : list (string * node) :=
  match o with object _ ps => ps end.

(** [{}] *)
Definition empty_object : obj := object None [].

(** The values a property read [o[k]] can give. *)
Inductive value : Type :=
| VUndefined
| VNode (n : node)
| VStr (s : string)
| VNum (z : Z)
| VBuiltin.          (* a function or object of the standard library *)

(** The names [Object.prototype] defines, the accessor [__proto__] apart. *)
Definition object_prototype_names : list string :=
  [ "constructor"; "hasOwnProperty"; "isPrototypeOf"; "propertyIsEnumerable";
    "toLocaleString"; "toString"; "valueOf";
    "__defineGetter__"; "__defineSetter__";
    "__lookupGetter__"; "__lookupSetter__" ].

Definition proto_key : string := "__proto__".

Fixpoint own (k : string) (ps : list (string * node)) : option node :=
  match ps with
  | [] => None
  | (k', n) :: ps' => if String.eqb k k' then Some n else own k ps'
  end.

(** [o[k]] : own properties first, then the prototype chain. *)
Definition get (o : obj) (k : string) : value :=
  match own k (props_of o) with
  | Some n => VNode n
  | None =>
      let inherited :=
        if String.eqb k proto_key then
          match proto_of o with
          | Some (p, s, z) => VNode (file p s z)
          | None => VBuiltin
          end
        else if existsb (String.eqb k) object_prototype_names then VBuiltin
        else VUndefined in
      match proto_of o with
      | Some (p, s, z) =>
          if String.eqb k "type" then VStr "file"
          else if String.eqb k "path" then VStr p
          else if String.eqb k "sha" then VStr s
          else if String.eqb k "size" then VNum z
          else inherited
      | None => inherited
      end
  end.

(** [!!v] *)
Definition truthy (v : value) : bool :=
  match v with
  | VUndefined => false
  | VNode _ => true
  | VStr s => negb (String.eqb s "")
  | VNum z => negb (Z.eqb z 0)
  | VBuiltin => true
  end.

(** [v.children], when it is an object the walk can continue in; every
    other value has no such property and the read gives [undefined]. *)
Definition children_of (v : value) : option obj :=
  match v with
  | VNode (folder c) => Some c
  | _ => None
  end.

(** Creating or overwriting the own property [k]; an existing key keeps its
    place in the creation order. *)
Fixpoint define (k : string) (n : node) (ps : list (string * node))
  : list (string * node) :=
  match ps with
  | [] => [(k, n)]
  | (k', n') :: ps' =>
      if String.eqb k k' then (k, n) :: ps' else (k', n') :: define k n ps'
  end.

(** [current[part] = { type: 'file', path, sha, size }].  The key
    [__proto__] reaches the setter of [Object.prototype], which replaces the
    prototype instead of creating a property. *)
Definition put_file (current : obj) (part : string) (f : item) : obj :=
  match current with
  | object pr ps =>
      if String.eqb part proto_key
      then object (Some (path f, sha f, size f)) ps
      else object pr (define part (file (path f) (sha f) (size f)) ps)
  end.

(** [current[part] = n] for a folder node [n]; the builder only does this
    after [!current[part]], which is never the case for [__proto__]. *)
Definition put_folder (current : obj) (part : string) (c : obj) : obj :=
  match current with
  | object pr ps => object pr (define part (folder c) ps)
  end.

(** What the code can throw, or a promise be rejected with. *)
Inductive exn : Type :=
| TypeErr                     (* a property read or written on [undefined] *)
| Error (message : string)    (* [throw new Error(message)] *)
| NetworkFailure              (* [fetch] rejected *)
| SyntaxErr                   (* [response.json()] rejected *)
| InvalidCharacterError.      (* [atob] on a string that is not base64 *)

(** The outcome of code that may throw. *)
Inductive result (A : Type) : Type :=
| Ok (a : A)
| Throw (e : exn).
Arguments Ok {A} a.
Arguments Throw {A} e.

(** [if (!current[part]) { current[part] = { type: 'folder', children: {} } }]:
    the object in which the loop then reads [current[part].children]. *)
Definition enter (current : obj) (part : string) : obj :=
  if negb (truthy (get current part))
  then put_folder current part empty_object
  else current.

(** The body of the [for] loop of [buildFileTree], over the remaining
    [parts]; the mutation of the object reached through [current] is
    returned as the new object. *)
Fixpoint walk (f : item) (parts : list string) (current : obj) : result obj :=
  match parts with
  | [] => Ok current
  | [part] => Ok (put_file current part f)
  | part :: rest =>
      let current1 := enter current part in
      match children_of (get current1 part) with
      | Some next =>
          match walk f rest next with
          | Ok next' => Ok (put_folder current1 part next')
          | Throw e => Throw e
          end
      | None => Throw TypeErr   (* [current] is [undefined] at the next read *)
      end
  end.

(** [this.excludedPaths.some(excluded => file.path.includes(excluded))] *)
Definition is_excluded (excludedPaths : list string) (f : item) : bool :=
  existsb (fun excluded => Str.includes (path f) excluded) excludedPaths.

Definition slash : ascii := "/"%char.

(** [file.path.split('/')] *)
Definition parts_of (f : item) : list string := Str.split slash (path f).

(** The callback of [files.forEach]. *)
Definition add_file (excludedPaths : list string) (tree : obj) (f : item)
  : result obj :=
  if is_excluded excludedPaths f then Ok tree
  else walk f (parts_of f) tree.

(** [buildFileTree(files)] with [this.excludedPaths]. *)
Definition buildFileTree (excludedPaths : list string) (files : list item)
  : result obj :=
  fold_left
    (fun acc f =>
       match acc with
       | Ok tree => add_file excludedPaths tree f
       | Throw e => Throw e
       end)
    files (Ok empty_object).

(** The records the filter keeps, and the last of them with a given path. *)
Definition retained (excludedPaths : list string) (files : list item)
  : list item :=
  filter (fun f => negb (is_excluded excludedPaths f)) files.

Definition latest (excludedPaths : list string) (files : list item)
  (p : string) : option item :=
  find (fun f => String.eqb (path f) p) (rev (retained excludedPaths files)).

(** Reading the tree back: the node found by following own properties along
    a list of names. *)
Fixpoint node_at (tree : obj) (names : list string) : option node :=
  match names with
  | [] => None
  | [k] => own k (props_of tree)
  | k :: rest =>
      match own k (props_of tree) with
      | Some (folder c) => node_at c rest
      | _ => None
      end
  end.

(** The file node the builder writes for a record. *)
Definition file_of (f : item) : node := file (path f) (sha f) (size f).

(** A name that [{}] does not inherit. *)
Definition plain_name (k : string) : bool :=
  negb (String.eqb k proto_key) &&
  negb (existsb (String.eqb k) object_prototype_names).

Fixpoint starts_with (l pre : list string) : bool :=
  match pre, l with
  | [], _ => true
  | _ :: _, [] => false
  | p :: pre', x :: l' => String.eqb p x && starts_with l' pre'
  end.

(** [b] goes on below [a]: the record of [a] would have to be a folder. *)
Definition continues (a b : list string) : bool :=
  starts_with b a && negb (Nat.eqb (length b) (length a)).

Definition walkable (parts : list string) : bool :=
  forallb plain_name (removelast parts) &&
  negb (String.eqb (last parts "") proto_key).

(** The listings of a file system: no folder has an inherited name, no file
    is called [__proto__], and no path goes on below a file. *)
Definition orderly (excludedPaths : list string) (files : list item) : bool :=
  let paths := map parts_of (retained excludedPaths files) in
  forallb walkable paths &&
  forallb (fun a => forallb (fun b => negb (continues a b)) paths) paths.

(** Every object of the tree still has [Object.prototype] as prototype. *)
Inductive protoless : obj -> Prop :=
| protoless_object ps :
    (forall k c, In (k, folder c) ps -> protoless c) ->
    protoless (object None ps).

(** What holds of every file of the tree while the records are added: it is
    at the place its path names, and it carries the data of the last record
    kept with that path. *)
Definition files_from (excludedPaths : list string) (files : list item)
  (tree : obj) : Prop :=
  forall ks p s z,
    node_at tree ks = Some (file p s z) ->
    ks = Str.split slash p /\
    last ks "" <> proto_key /\
    exists f, latest excludedPaths files p = Some f /\ file_of f = file p s z.

(** Every record kept is in the tree, with the data of the last record of
    its path. *)
Definition all_present (excludedPaths : list string) (files : list item)
  (tree : obj) : Prop :=
  forall f, In f (retained excludedPaths files) ->
    exists g, latest excludedPaths files (path f) = Some g /\
              node_at tree (parts_of f) = Some (file_of g).

(** ** Rendering one level: [Object.keys(tree).sort(...)] *)

Definition digit_of (c : ascii) : option N :=
  let n := N_of_ascii c in
  if ((48 <=? n) && (n <=? 57))%N then Some (n - 48)%N else None.

Fixpoint decimal (s : string) (acc : N) : option N :=
  match s with
  | EmptyString => Some acc
  | String c s' =>
      match digit_of c with
      | Some d => decimal s' (10 * acc + d)%N
      | None => None
      end
  end.

(** A key is an array index when it is the canonical decimal form of an
    integer below [2^32 - 1]; [Object.keys] lists such keys first. *)
Definition array_index (k : string) : option N :=
  match k with
  | EmptyString => None
  | String c rest =>
      if Ascii.eqb c "0"%char then
        (if String.eqb rest "" then Some 0%N else None)
      else
        match decimal k 0 with
        | Some n => if (n <? 4294967295)%N then Some n else None
        | None => None
        end
  end.

Fixpoint insert_index (e : N * string) (l : list (N * string))
  : list (N * string) :=
  match l with
  | [] => [e]
  | e' :: l' =>
      if (fst e <=? fst e')%N then e :: e' :: l' else e' :: insert_index e l'
  end.

Definition index_keys (ps : list (string * node)) : list (N * string) :=
  flat_map (fun kn => match array_index (fst kn) with
                      | Some i => [(i, fst kn)]
                      | None => []
                      end) ps.

Definition name_keys (ps : list (string * node)) : list string :=
  flat_map (fun kn => match array_index (fst kn) with
                      | Some _ => []
                      | None => [fst kn]
                      end) ps.

(** [Object.keys(o)]: the own keys, array indices in ascending order first,
    then the other names in creation order. *)
Definition Object_keys (o : obj) : list string :=
  map snd (fold_right insert_index [] (index_keys (props_of o)))
  ++ name_keys (props_of o).

(** [tree[a].type === 'folder'] *)
Definition is_folder (v : value) : bool :=
  match v with
  | VNode (folder _) => true
  | _ => false
  end.

Set Warnings "-register-all".

(** The rendered list: [<ul class="file-tree">] of [<li>] elements.  A file
    element carries the arguments of its click handler,
    [selectFile(item.path, item.size)]. *)
Inductive li : Type :=
| tree_folder (name : string) (children : list li)
| tree_file (name : string) (p : string) (z : Z).

Definition li_name (e : li) : string :=
  match e with
  | tree_folder name _ => name
  | tree_file name _ _ => name
  end.

Definition li_is_folder (e : li) : bool :=
  match e with
  | tree_folder _ _ => true
  | tree_file _ _ _ => false
  end.

Section Rendering.

(** [a.localeCompare(b)]: the collation of the host, negative, zero or
    positive. *)
Variable localeCompare : string -> string -> Z.

(** [array.sort(comparefn)], a stable sort: an element goes before the first
    one it does not compare greater than. *)
Fixpoint sort_insert (comparefn : string -> string -> Z) (a : string)
  (sorted : list string) : list string :=
  match sorted with
  | [] => [a]
  | b :: rest =>
      if (comparefn a b <=? 0)%Z then a :: b :: rest
      else b :: sort_insert comparefn a rest
  end.

Definition sort (comparefn : string -> string -> Z) (l : list string)
  : list string :=
  fold_right (sort_insert comparefn) [] l.

(** The comparison function of [createTreeElement]. *)
Definition compare_entries (tree : obj) (a b : string) : Z :=
  let aIsFolder := is_folder (get tree a) in
  let bIsFolder := is_folder (get tree b) in
  if aIsFolder && negb bIsFolder then (-1)%Z
  else if negb aIsFolder && bIsFolder then 1%Z
  else localeCompare a b.

Definition entries (tree : obj) : list string :=
  sort (compare_entries tree) (Object_keys tree).

(** [createTreeElement(tree, prefix)].  The recursion follows the nesting of
    the folders; [fuel] bounds it, and [renderFileTree] below passes more
    than the nesting of its tree.  A name of [entries] is an own key, so
    [tree[name]] is a node. *)
Fixpoint createTreeElement (fuel : nat) (tree : obj) (prefix : string)
  : list li :=
  match fuel with
  | O => []
  | S fuel' =>
      flat_map
        (fun name =>
           match get tree name with
           | VNode (folder c) =>
               [tree_folder name
                  (createTreeElement fuel' c (prefix ++ name ++ "/"))]
           | VNode (file p _ z) => [tree_file name p z]
           | _ => []
           end)
        (entries tree)
  end.

End Rendering.

(** The nesting of folders below a node and below an object. *)
Fixpoint node_depth (n : node) : nat :=
  match n with
  | file _ _ _ => O
  | folder c =>
      S (list_max (map (fun kn => node_depth (snd kn)) (props_of c)))
  end.

Definition obj_depth (o : obj) : nat :=
  list_max (map (fun kn => node_depth (snd kn)) (props_of o)).

(** The order of two list elements of one level: a folder before a file,
    and inside a group by [localeCompare]. *)
Definition li_before (localeCompare : string -> string -> Z) (x y : li)
  : Prop :=
  (li_is_folder x = true /\ li_is_folder y = false) \/
  (li_is_folder x = li_is_folder y /\
   (localeCompare (li_name x) (li_name y) <= 0)%Z).

(** Every list of the rendered tree is in that order. *)
Inductive ordered_levels (localeCompare : string -> string -> Z)
  : list li -> Prop :=
| ordered_level items :
    StronglySorted (li_before localeCompare) items ->
    (forall name children,
        In (tree_folder name children) items ->
        ordered_levels localeCompare children) ->
    ordered_levels localeCompare items.

(** A list that shows an object in full: its elements are the entries of
    the object, and the list inside a folder element shows the children of
    that folder in full. *)
Inductive renders (localeCompare : string -> string -> Z)
  : obj -> list li -> Prop :=
| renders_level tree items :
    map li_name items = entries localeCompare tree ->
    (forall name children,
        In (tree_folder name children) items ->
        exists c, get tree name = VNode (folder c) /\
                  renders localeCompare c children) ->
    renders localeCompare tree items.

(** ** [atob]: forgiving base64 decoding *)

Module Base64.

Definition is_ascii_whitespace (c : ascii) : bool :=
  let n := nat_of_ascii c in
  Nat.eqb n 9 || Nat.eqb n 10 || Nat.eqb n 12 || Nat.eqb n 13 || Nat.eqb n 32.

(** The value of a character of the base64 alphabet. *)
Definition sextet (c : ascii) : option nat :=
  let n := nat_of_ascii c in
  if Nat.leb 65 n && Nat.leb n 90 then Some (n - 65)            (* A-Z *)
  else if Nat.leb 97 n && Nat.leb n 122 then Some (n - 97 + 26) (* a-z *)
  else if Nat.leb 48 n && Nat.leb n 57 then Some (n - 48 + 52)  (* 0-9 *)
  else if Nat.eqb n 43 then Some 62                             (* + *)
  else if Nat.eqb n 47 then Some 63                             (* / *)
  else None.

Fixpoint sextets (l : list ascii) : option (list nat) :=
  match l with
  | [] => Some []
  | c :: l' =>
      match sextet c, sextets l' with
      | Some v, Some vs => Some (v :: vs)
      | _, _ => None
      end
  end.

(** When the length is a multiple of four, one or two trailing [=] go. *)
Definition strip_padding (l : list ascii) : list ascii :=
  if Nat.eqb (Nat.modulo (length l) 4) 0 then
    match rev l with
    | "="%char :: "="%char :: r => rev r
    | "="%char :: r => rev r
    | _ => l
    end
  else l.

(** Four sextets give three bytes; a rest of three gives two bytes and a
    rest of two gives one, the bits left over being dropped. *)
Fixpoint bytes (vs : list nat) : list ascii :=
  match vs with
  | a :: b :: c :: d :: rest =>
      let n := ((a * 64 + b) * 64 + c) * 64 + d in
      ascii_of_nat (n / (256 * 256))
        :: ascii_of_nat ((n / 256) mod 256)
        :: ascii_of_nat (n mod 256)
        :: bytes rest
  | [a; b; c] =>
      let n := ((a * 64 + b) * 64 + c) / 4 in
      [ascii_of_nat (n / 256); ascii_of_nat (n mod 256)]
  | [a; b] => [ascii_of_nat ((a * 64 + b) / 16)]
  | _ => []
  end.

(** [atob(data)]; [None] is the [InvalidCharacterError]. *)
Definition atob (data : string) : option string :=
  let stripped :=
    filter (fun c => negb (is_ascii_whitespace c)) (list_ascii_of_string data) in
  let unpadded := strip_padding stripped in
  if Nat.eqb (Nat.modulo (length unpadded) 4) 1 then None
  else
    match sextets unpadded with
    | Some vs => Some (string_of_list_ascii (bytes vs))
    | None => None
    end.

End Base64.

(** ** The controller *)

(** What [await fetch(url)] gives: a rejection, or a response with its [ok]
    flag, its [statusText] and the value of [await response.json()] ([None]
    when that promise rejects or the body lacks the fields the code reads).
    The three endpoints answer with a tree SHA
    ([commit.commit.tree.sha]), a listing ([tree]) and a file
    ([encoding], [content]). *)
Inductive fetched (A : Type) : Type :=
| Rejected
| Resolved (ok : bool) (statusText : string) (json : option A).
Arguments Rejected {A}.
Arguments Resolved {A} ok statusText json.

(** The remote API.  The first argument is the number of requests sent
    before this one, so an answer may depend on the moment of the request. *)
Record network := {
  branches : nat -> string -> fetched string;
  trees : nat -> string -> fetched (list item);
  contents : nat -> string -> fetched (string * string)
}.

(** The statement of the source that issued a request. *)
Inductive endpoint : Type := BranchLookup | TreeListing | FileContents.

Record request := { endpoint_of : endpoint; url : string }.

(** The panel of the tree ([.file-tree-container]). *)
Inductive tree_panel : Type :=
| LoadingTree                   (* "Loading repository structure..." *)
| TreeView (ul : list li)
| ErrorView (message : string).

(** The panel of the file ([.file-viewer]). *)
Inductive file_viewer : Type :=
| Placeholder                   (* "Select a file from the tree ..." *)
| Notice (message : string)     (* [showFileViewer(message)] *)
| FileView (p content : string).

(** The fields of an instance, with the two panels of its container and the
    path of the list element that has the class [selected]. *)
Record browser := {
  owner : string;
  repo : string;
  branch : string;
  maxFileSize : Z;
  excludedPaths : list string;
  fileTree : option obj;
  panel : tree_panel;
  viewer : file_viewer;
  selected : option string
}.

(** An instance and the requests sent so far, oldest first. *)
Record state := { this : browser; sent : list request }.

Definition set_branch (b : string) (st : state) : state :=
  {| this := {| owner := owner (this st); repo := repo (this st);
                branch := b;
                maxFileSize := maxFileSize (this st);
                excludedPaths := excludedPaths (this st);
                fileTree := fileTree (this st);
                panel := panel (this st); viewer := viewer (this st);
                selected := selected (this st) |};
     sent := sent st |}.

Definition set_fileTree (t : obj) (st : state) : state :=
  {| this := {| owner := owner (this st); repo := repo (this st);
                branch := branch (this st);
                maxFileSize := maxFileSize (this st);
                excludedPaths := excludedPaths (this st);
                fileTree := Some t;
                panel := panel (this st); viewer := viewer (this st);
                selected := selected (this st) |};
     sent := sent st |}.

Definition set_panel (v : tree_panel) (st : state) : state :=
  {| this := {| owner := owner (this st); repo := repo (this st);
                branch := branch (this st);
                maxFileSize := maxFileSize (this st);
                excludedPaths := excludedPaths (this st);
                fileTree := fileTree (this st);
                panel := v; viewer := viewer (this st);
                selected := selected (this st) |};
     sent := sent st |}.

Definition set_viewer (v : file_viewer) (st : state) : state :=
  {| this := {| owner := owner (this st); repo := repo (this st);
                branch := branch (this st);
                maxFileSize := maxFileSize (this st);
                excludedPaths := excludedPaths (this st);
                fileTree := fileTree (this st);
                panel := panel (this st); viewer := v;
                selected := selected (this st) |};
     sent := sent st |}.

Definition set_selected (p : string) (st : state) : state :=
  {| this := {| owner := owner (this st); repo := repo (this st);
                branch := branch (this st);
                maxFileSize := maxFileSize (this st);
                excludedPaths := excludedPaths (this st);
                fileTree := fileTree (this st);
                panel := panel (this st); viewer := viewer (this st);
                selected := Some p |};
     sent := sent st |}.

(** The request is appended to the log. *)
Definition sending (e : endpoint) (u : string) (st : state) : state :=
  {| this := this st; sent := sent st ++ [{| endpoint_of := e; url := u |}] |}.

Definition api : string := "https://api.github.com/repos/".

Definition branchUrl (b : browser) : string :=
  api ++ owner b ++ "/" ++ repo b ++ "/branches/" ++ branch b.

Definition treeUrl (b : browser) (treeSha : string) : string :=
  api ++ owner b ++ "/" ++ repo b ++ "/git/trees/" ++ treeSha ++ "?recursive=1".

Definition contentUrl (b : browser) (p : string) : string :=
  api ++ owner b ++ "/" ++ repo b ++ "/contents/" ++ p ++ "?ref=" ++ branch b.

Definition is_main (st : state) : bool := String.eqb (branch (this st)) "main".

(** The fallbacks [fetchRepositoryTree] can still make. *)
Definition fallbacks_left (st : state) : nat := if is_main st then 1 else 0.

(** The messages of the two panels. *)
Definition load_failure : string :=
  "Failed to load repository. Make sure the repository is public.".

Definition file_failure : string :=
  "Failed to load file. Please try again or view on GitHub.".

Definition Z_to_string (z : Z) : string := NilZero.string_of_int (Z.to_int z).

(** [(num / den).toFixed(1)] for a power of two [den]: the quotient is exact
    in floating point, and a tie goes to the larger tenth. *)
Definition toFixed1 (num den : Z) : string :=
  let tenths := ((10 * num + den / 2) / den)%Z in
  Z_to_string (tenths / 10) ++ "." ++ Z_to_string (tenths mod 10).

(** [formatFileSize(bytes)] *)
Definition formatFileSize (bytes : Z) : string :=
  if (bytes <? 1024)%Z then Z_to_string bytes ++ " B"
  else if (bytes <? 1024 * 1024)%Z then toFixed1 bytes 1024 ++ " KB"
  else toFixed1 bytes (1024 * 1024) ++ " MB".

Definition too_large (sz : Z) : string :=
  "File too large to display (" ++ formatFileSize sz
  ++ "). Please view on GitHub.".

Section Controller.

Variable net : network.
Variable localeCompare : string -> string -> Z.

(** The second half of [fetchRepositoryTree], from "Get the recursive
    tree". *)
Definition fetch_listing (treeSha : string) (st : state)
  : result (list item) * state :=
  let treeUrl := treeUrl (this st) treeSha in
  match trees net (length (sent st)) treeUrl with
  | Rejected => (Throw NetworkFailure, sending TreeListing treeUrl st)
  | Resolved false statusText _ =>
      (Throw (Error ("Failed to fetch tree: " ++ statusText)),
       sending TreeListing treeUrl st)
  | Resolved true _ None => (Throw SyntaxErr, sending TreeListing treeUrl st)
  | Resolved true _ (Some tree) =>
      (Ok (filter (fun item => String.eqb (type item) "blob") tree),
       sending TreeListing treeUrl st)
  end.

(** [fetchRepositoryTree()].  It calls itself once at most: only when the
    branch is ['main'], and then with the branch ['master']. *)
Equations? fetchRepositoryTree (st : state) : result (list item) * state
  by wf (fallbacks_left st) lt :=
fetchRepositoryTree st
  with inspect (is_main st),
       branches net (length (sent st)) (branchUrl (this st)) := {
  | _, Rejected =>
      (Throw NetworkFailure, sending BranchLookup (branchUrl (this st)) st);
  | exist _ true _, Resolved false _ _ =>
      fetchRepositoryTree
        (set_branch "master" (sending BranchLookup (branchUrl (this st)) st));
  | exist _ false _, Resolved false statusText _ =>
      (Throw (Error ("Failed to fetch branch: " ++ statusText)),
       sending BranchLookup (branchUrl (this st)) st);
  | _, Resolved true _ None =>
      (Throw SyntaxErr, sending BranchLookup (branchUrl (this st)) st);
  | _, Resolved true _ (Some treeSha) =>
      fetch_listing treeSha (sending BranchLookup (branchUrl (this st)) st) }.
Proof.
  unfold fallbacks_left. rewrite e. unfold is_main. simpl. lia.
Qed.

(** Code that reads and writes the instance, sends requests and may
    throw: the state is kept when it throws. *)
Definition M (A : Type) : Type := state -> result A * state.

Definition ret {A : Type} (a : A) : M A := fun st => (Ok a, st).

Definition throw {A : Type} (e : exn) : M A := fun st => (Throw e, st).

Definition bind {A B : Type} (m : M A) (k : A -> M B) : M B :=
  fun st =>
    match m st with
    | (Ok a, st') => k a st'
    | (Throw e, st') => (Throw e, st')
    end.

(** [try { m } catch (error) { handler }] *)
Definition try_catch {A : Type} (m : M A) (handler : exn -> M A) : M A :=
  fun st =>
    match m st with
    | (Ok a, st') => (Ok a, st')
    | (Throw e, st') => handler e st'
    end.

(** A statement that only updates the state. *)
Definition update (f : state -> state) : M unit := fun st => (Ok tt, f st).

(** Reading a field of [this]. *)
Definition field {A : Type} (f : browser -> A) : M A :=
  fun st => (Ok (f (this st)), st).

Definition lift {A : Type} (r : result A) : M A := fun st => (r, st).

Notation "x <- m ;; k" := (bind m (fun x => k))
  (at level 61, m at next level, right associativity).
Notation "m ;;; k" := (bind m (fun _ => k))
  (at level 61, right associativity).

(** [showError(message)] *)
Definition showError (message : string) : M unit :=
  update (set_panel (ErrorView message)).

(** [showFileViewer(message)] *)
Definition showFileViewer (message : string) : M unit :=
  update (set_viewer (Notice message)).

(** [renderFileTree()]: [Object.keys] throws on [null]. *)
Definition renderFileTree : M unit :=
  fileTree <- field fileTree ;;
  match fileTree with
  | Some t =>
      update (set_panel
                (TreeView (createTreeElement localeCompare (S (obj_depth t)) t "")))
  | None => throw TypeErr
  end.

(** [loadRepository()] *)
Definition loadRepository : M unit :=
  try_catch
    (tree <- fetchRepositoryTree ;;
     excluded <- field excludedPaths ;;
     built <- lift (buildFileTree excluded tree) ;;
     update (set_fileTree built) ;;;
     renderFileTree)
    (fun error =>
       showError load_failure).

(** [fetchFileContent(path)] *)
Definition fetchFileContent (p : string) : M string :=
  fun st =>
    let url := contentUrl (this st) p in
    match contents net (length (sent st)) url with
    | Rejected => (Throw NetworkFailure, sending FileContents url st)
    | Resolved false statusText _ =>
        (Throw (Error ("Failed to fetch file: " ++ statusText)),
         sending FileContents url st)
    | Resolved true _ None => (Throw SyntaxErr, sending FileContents url st)
    | Resolved true _ (Some (encoding, content)) =>
        if String.eqb encoding "base64" then
          match Base64.atob content with
          | Some decoded => (Ok decoded, sending FileContents url st)
          | None => (Throw InvalidCharacterError, sending FileContents url st)
          end
        else (Ok content, sending FileContents url st)
    end.

(** [displayFile(path, content)]: the viewer shows the path and the content,
    escaped; highlighting is left to Prism, when it is there. *)
Definition displayFile (p content : string) : M unit :=
  update (set_viewer (FileView p content)).

(** [selectFile(path, size)], called from the click handler of a file. *)
Definition selectFile (p : string) (sz : Z) : M unit :=
  update (set_selected p) ;;;
  maxFileSize <- field maxFileSize ;;
  if (sz >? maxFileSize)%Z then
    showFileViewer (too_large sz)
  else
    showFileViewer "Loading file..." ;;;
    try_catch
      (content <- fetchFileContent p ;;
       displayFile p content)
      (fun error => showFileViewer file_failure).

End Controller.

(** Clicks on files, one after the other, each with the arguments of its
    handler. *)
Definition select_all (net : network) (clicks : list (string * Z))
  (st : state) : state :=
  fold_left (fun st click => snd (selectFile net (fst click) (snd click) st))
    clicks st.

Definition is_lookup (r : request) : bool :=
  match endpoint_of r with
  | BranchLookup => true
  | _ => false
  end.

(** The branch requests among some requests, as their URLs. *)
Definition branch_lookups (l : list request) : list string :=
  map url (filter is_lookup l).

(** [!response.ok] *)
Definition not_ok {A : Type} (a : fetched A) : bool :=
  match a with
  | Resolved false _ _ => true
  | _ => false
  end.

(** A request for the content of some file on branch [b]. *)
Definition content_request_on (o r b : string) (q : request) : Prop :=
  endpoint_of q = FileContents /\
  exists p,
    url q = (api ++ o ++ "/" ++ r ++ "/contents/" ++ p ++ "?ref=" ++ b)%string.

(** ** The constructor and the [DOMContentLoaded] handler *)

(** The longest prefix without [/], and what follows it. *)
Fixpoint take_segment (s : string) : string * string :=
  match s with
  | EmptyString => (EmptyString, EmptyString)
  | String c s' =>
      if Ascii.eqb c slash then (EmptyString, s)
      else let (seg, rest) := take_segment s' in (String c seg, rest)
  end.

Fixpoint drop (n : nat) (s : string) : string :=
  match n, s with
  | O, _ => s
  | S n', String _ s' => drop n' s'
  | S _, EmptyString => EmptyString
  end.

(** The pattern [github\.com\/([^\/]+)\/([^\/]+)] at the start of [s]. *)
Definition match_here (s : string) : option (string * string) :=
  if Str.startsWith s "github.com/" then
    let (g1, r1) := take_segment (drop 11 s) in
    match g1, r1 with
    | String _ _, String _ r2 =>
        match take_segment r2 with
        | (String c g2, _) => Some (g1, String c g2)
        | (EmptyString, _) => None
        end
    | _, _ => None
    end
  else None.

(** [repoUrl.match(/github\.com\/([^\/]+)\/([^\/]+)/)]: the leftmost match,
    as its two groups. *)
Fixpoint match_repo (repoUrl : string) : option (string * string) :=
  match match_here repoUrl with
  | Some m => Some m
  | None =>
      match repoUrl with
      | EmptyString => None
      | String _ s' => match_repo s'
      end
  end.

(** [s.replace(/\.git$/, '')] *)
Fixpoint strip_dot_git (s : string) : string :=
  match s with
  | EmptyString => EmptyString
  | String c s' =>
      if String.eqb s ".git" then EmptyString else String c (strip_dot_git s')
  end.

(** The [options] argument; [None] is a property that is not there. *)
Record options := {
  opt_branch : option string;
  opt_maxFileSize : option Z;
  opt_excludedPaths : option (list string)
}.

(** [options = {}] *)
Definition no_options : options :=
  {| opt_branch := None; opt_maxFileSize := None; opt_excludedPaths := None |}.

Definition default_excludedPaths : list string :=
  [".git"; "node_modules"; ".vs"; "Binaries"; "DerivedDataCache";
   "Intermediate"; "Saved"; "Build"].

(** [constructor(containerId, repoUrl, options)], up to [loadRepository()]:
    the fields of the new instance with the two panels as [render()] draws
    them, or [None] when the constructor returns early.  [container] tells
    whether
    [document.getElementById(containerId)] found an element; [repoUrl] is
    [None] for [null], on which [.match] throws.  An array is truthy, the
    empty one too. *)
Definition constructor (container : bool) (repoUrl : option string)
  (opts : options) : result (option browser) :=
  if negb container then Ok None
  else
    match repoUrl with
    | None => Throw TypeErr
    | Some repoUrl =>
        match match_repo repoUrl with
        | None => Ok None
        | Some (g1, g2) =>
            Ok (Some
                  {| owner := g1;
                     repo := strip_dot_git g2;
                     branch := match opt_branch opts with
                               | Some b => if String.eqb b "" then "main" else b
                               | None => "main"
                               end;
                     maxFileSize := match opt_maxFileSize opts with
                                    | Some m => if (m =? 0)%Z then 100000%Z else m
                                    | None => 100000%Z
                                    end;
                     excludedPaths := match opt_excludedPaths opts with
                                      | Some l => l
                                      | None => default_excludedPaths
                                      end;
                     fileTree := None;
                     panel := LoadingTree;
                     viewer := Placeholder;
                     selected := None |})
        end
    end.

(** An element of the page with its attributes. *)
Record element := { id : string; attributes : list (string * string) }.

Fixpoint getAttribute (attrs : list (string * string)) (name : string)
  : option string :=
  match attrs with
  | [] => None
  | (k, v) :: rest => if String.eqb k name then Some v else getAttribute rest name
  end.

Definition is_white_space (c : ascii) : bool :=
  let n := nat_of_ascii c in
  (Nat.leb 9 n && Nat.leb n 13) || Nat.eqb n 32 || Nat.eqb n 160.

Fixpoint trim_start (s : string) : string :=
  match s with
  | EmptyString => EmptyString
  | String c s' => if is_white_space c then trim_start s' else s
  end.

Definition digit_in (radix : Z) (c : ascii) : option Z :=
  let n := Z.of_nat (nat_of_ascii c) in
  let v := if ((48 <=? n) && (n <=? 57))%Z then (n - 48)%Z
           else if ((97 <=? n) && (n <=? 122))%Z then (n - 97 + 10)%Z
           else if ((65 <=? n) && (n <=? 90))%Z then (n - 65 + 10)%Z
           else 36%Z in
  if (v <? radix)%Z then Some v else None.

(** The value of the longest prefix of digits, if there is a digit. *)
Fixpoint digits_value (radix : Z) (s : string) (acc : option Z) : option Z :=
  match s with
  | EmptyString => acc
  | String c s' =>
      match digit_in radix c with
      | Some d =>
          digits_value radix s'
            (Some (match acc with Some a => a * radix + d | None => d end)%Z)
      | None => acc
      end
  end.

(** [parseInt(input)] with no radix; [None] is [NaN]. *)
Definition parseInt (input : option string) : option Z :=
  match input with
  | None => None                       (* [parseInt(null)] *)
  | Some s =>
      let s := trim_start s in
      let (sign, s) :=
        match s with
        | String "-"%char r => ((-1)%Z, r)
        | String "+"%char r => (1%Z, r)
        | _ => (1%Z, s)
        end in
      let (radix, s) :=
        if Str.startsWith s "0x" || Str.startsWith s "0X"
        then (16%Z, drop 2 s) else (10%Z, s) in
      match digits_value radix s None with
      | Some v => Some (sign * v)%Z
      | None => None
      end
  end.

(** The callback of the [DOMContentLoaded] handler for one element with the
    attribute [data-code-browser]; [container] as for [constructor]. *)
Definition auto_initialize (container : bool) (e : element)
  : result (option browser) :=
  let repoUrl := getAttribute (attributes e) "data-repo-url" in
  let branch :=
    match getAttribute (attributes e) "data-branch" with
    | Some b => if String.eqb b "" then "main" else b
    | None => "main"
    end in
  let maxFileSize :=
    match parseInt (getAttribute (attributes e) "data-max-file-size") with
    | Some m => if (m =? 0)%Z then 100000%Z else m
    | None => 100000%Z
    end in
  let excludedPaths := getAttribute (attributes e) "data-excluded-paths" in
  let excludedPathsArray :=
    match excludedPaths with
    | Some s => if String.eqb s "" then [] else Str.split ","%char s
    | None => []
    end in
  constructor container repoUrl
    {| opt_branch := Some branch;
       opt_maxFileSize := Some maxFileSize;
       opt_excludedPaths := Some excludedPathsArray |}.

(** ** Sample data *)

Definition blob (p s : string) (z : Z) : item :=
  {| type := "blob"; path := p; sha := s; size := z |}.

(** The order of the code units, as a stand-in for a collation. *)
Definition code_unit_order (a b : string) : Z :=
  match String.compare a b with
  | Lt => (-1)%Z
  | Eq => 0%Z
  | Gt => 1%Z
  end.

Definition sample_files : list item :=
  [ blob "src/app.js" "a1" 1200;
    blob "README.md" "b2" 300;
    blob "node_modules/x/index.js" "c3" 90;
    blob "src/lib/util.js" "d4" 200000 ].

(** The listing of the API names the directories too. *)
Definition sample_listing : list item :=
  sample_files ++ [{| type := "tree"; path := "src"; sha := "e5"; size := 0 |}].

Definition sample_tree : obj :=
  object None
    [("src",
      folder (object None
        [("app.js", file "src/app.js" "a1" 1200);
         ("lib",
          folder (object None
            [("util.js", file "src/lib/util.js" "d4" 200000)]))]));
     ("README.md", file "README.md" "b2" 300)].

(** A repository whose default branch is [master]. *)
Definition sample_net : network :=
  {| branches := fun _ u =>
       if String.eqb u
            "https://api.github.com/repos/octocat/Hello-World/branches/master"
       then Resolved true "OK" (Some "7fd1a60")
       else Resolved false "Not Found" None;
     trees := fun _ _ => Resolved true "OK" (Some sample_listing);
     contents := fun _ _ => Resolved true "OK" (Some ("base64", "aGVsbG8=")) |}.

(** A repository that is private or missing. *)
Definition missing_net : network :=
  {| branches := fun _ _ => Resolved false "Not Found" None;
     trees := fun _ _ => Resolved false "Not Found" None;
     contents := fun _ _ => Resolved false "Not Found" None |}.

(** A public repository with a folder called [constructor]. *)
Definition inherited_net : network :=
  {| branches := fun _ _ => Resolved true "OK" (Some "0c1d2e3");
     trees := fun _ _ =>
       Resolved true "OK"
         (Some [blob "constructor/index.js" "f6" 10; blob "README.md" "b2" 300]);
     contents := fun _ _ => Resolved true "OK" (Some ("base64", "aGVsbG8=")) |}.

Definition sample_browser : browser :=
  {| owner := "octocat"; repo := "Hello-World"; branch := "main";
     maxFileSize := 100000; excludedPaths := default_excludedPaths;
     fileTree := None; panel := LoadingTree; viewer := Placeholder;
     selected := None |}.

Definition sample_state : state := {| this := sample_browser; sent := [] |}.

Definition sample_element : element :=
  {| id := "browser";
     attributes := [("data-code-browser", "");
                    ("data-repo-url", "https://github.com/octocat/Hello-World")] |}.

(** ** The rest of the class: [displayFile], [detectLanguage], [escapeHtml] *)

(** [array.pop()] as an expression, on the arrays [split] gives, which are
    never empty. *)
Definition pop (l : list string) : string := last l "".

Definition dot : ascii := "."%char.

(** [path.split('/').pop()] *)
Definition fileName_of (p : string) : string := pop (Str.split slash p).

(** [fileName.split('.').pop()] *)
Definition extension_of (p : string) : string :=
  pop (Str.split dot (fileName_of p)).

(** One code unit of [s.toLowerCase()], for the code units below 256: the
    letters [A]-[Z] and the capital letters of Latin-1. *)
Definition lower_char (c : ascii) : ascii :=
  let n := nat_of_ascii c in
  if (Nat.leb 65 n && Nat.leb n 90)
     || (Nat.leb 192 n && Nat.leb n 222 && negb (Nat.eqb n 215))
  then ascii_of_nat (n + 32)
  else c.

Fixpoint toLowerCase (s : string) : string :=
  match s with
  | EmptyString => EmptyString
  | String c s' => String (lower_char c) (toLowerCase s')
  end.

(** The own properties of [languageMap]. *)
Definition languageMap : list (string * string) :=
  [ ("js", "javascript"); ("jsx", "javascript");
    ("ts", "typescript"); ("tsx", "typescript");
    ("py", "python"); ("cpp", "cpp"); ("c", "c"); ("h", "cpp");
    ("hpp", "cpp"); ("cs", "csharp"); ("java", "java"); ("html", "html");
    ("css", "css"); ("scss", "css"); ("json", "json"); ("xml", "xml");
    ("sh", "bash"); ("md", "markdown"); ("yml", "yaml"); ("yaml", "yaml") ].

Fixpoint lookup (k : string) (table : list (string * string)) : option string :=
  match table with
  | [] => None
  | (k', v) :: rest => if String.eqb k k' then Some v else lookup k rest
  end.

(** [detectLanguage(extension)]: [languageMap] is an object literal, so a
    name it inherits reads as a function or an object, which is truthy and
    is returned as it is. *)
Definition detectLanguage (extension : string) : value :=
  let key := toLowerCase extension in
  match lookup key languageMap with
  | Some language => VStr language
  | None =>
      if String.eqb key proto_key
         || existsb (String.eqb key) object_prototype_names
      then VBuiltin
      else VStr "text"
  end.

(** The language [displayFile(path, content)] puts in the class of the
    [code] element. *)
Definition language_of (p : string) : value :=
  detectLanguage (extension_of p).

(** The serialisation of one code unit of a text node. *)
Definition escape_char (c : ascii) : string :=
  if Ascii.eqb c "&"%char then "&amp;"
  else if Ascii.eqb c "<"%char then "&lt;"
  else if Ascii.eqb c ">"%char then "&gt;"
  else if Nat.eqb (nat_of_ascii c) 160 then "&nbsp;"
  else String c EmptyString.

(** [escapeHtml(text)]: the [innerHTML] of a [div] whose [textContent] is
    [text]. *)
Fixpoint escapeHtml (text : string) : string :=
  match text with
  | EmptyString => EmptyString
  | String c s => escape_char c ++ escapeHtml s
  end.

(** ** The page: [document.getElementById] and the whole handler *)





(** ** Walking the rendered lists *)


(** ** Reading the instance and its requests *)

(** The fields other than [branch]. *)
Definition settings (b : browser) : string * string * Z * list string :=
  (owner b, repo b, maxFileSize b, excludedPaths b).

Definition lookup_request (u : string) : request :=
  {| endpoint_of := BranchLookup; url := u |}.

(** The clicks that ask for the content: those within the size limit. *)
Definition within_limit (limit : Z) (click : string * Z) : bool :=
  (snd click <=? limit)%Z.

(** The API breaks the lines of a base64 content. *)
Definition wrapped_net : network :=
  {| branches := fun _ _ => Resolved true "OK" (Some "7fd1a60");
     trees := fun _ _ => Resolved true "OK" (Some sample_files);
     contents := fun _ _ =>
       Resolved true "OK"
         (Some ("base64", ("aGVs" ++ String "010"%char "bG8=")%string)) |}.

(** * Properties *)

(** ** Strings *)

Module StrFacts.
Import Str.

Lemma split_not_nil sep s : split sep s <> [].
Proof.
  destruct s as [|c s]; simpl; [discriminate|].
  destruct (Ascii.eqb c sep); [discriminate|].
  destruct (split sep s); discriminate.
Qed.

(** Joining the segments of a string gives the string back. *)
Lemma join_split sep s : join sep (split sep s) = s.
Proof.
  induction s as [|c s IH]; simpl; [reflexivity|].
  destruct (Ascii.eqb_spec c sep) as [->|Hc].
  - pose proof (split_not_nil sep s) as Hne.
    destruct (split sep s) as [|h t] eqn:E; [contradiction|].
    simpl in *. now rewrite IH.
  - pose proof (split_not_nil sep s) as Hne.
    destruct (split sep s) as [|h t] eqn:E; [contradiction|].
    destruct t as [|h' t']; simpl in *; now rewrite <- IH.
Qed.

Lemma split_injective sep s1 s2 : split sep s1 = split sep s2 -> s1 = s2.
Proof.
  intros H. rewrite <- (join_split sep s1), <- (join_split sep s2).
  now rewrite H.
Qed.

Lemma startsWith_spec s pat :
  startsWith s pat = true <-> exists post, s = (pat ++ post)%string.
Proof.
  revert s. induction pat as [|c pat IH]; intros s; simpl.
  - split; [intros _; now exists s | now destruct s].
  - destruct s as [|d s].
    + split; [discriminate | intros [post H]; discriminate].
    + simpl. rewrite andb_true_iff, IH. split.
      * intros [Hc [post ->]]. apply Ascii.eqb_eq in Hc. subst.
        now exists post.
      * intros [post H]. injection H as -> ->.
        split; [apply Ascii.eqb_refl | now exists post].
Qed.

(** [includes] is the substring relation. *)
Lemma includes_spec s pat :
  includes s pat = true <-> exists pre post, s = (pre ++ pat ++ post)%string.
Proof.
  induction s as [|c s IH].
  - cbn [includes]. rewrite orb_false_r, startsWith_spec. split.
    + intros [post H]. now exists "", post.
    + intros [pre [post H]]. destruct pre as [|? ?]; [|discriminate].
      now exists post.
  - cbn [includes]. rewrite orb_true_iff, IH, startsWith_spec. split.
    + intros [[post H] | [pre [post H]]].
      * now exists "", post.
      * exists (String c pre), post. simpl. now rewrite H.
    + intros [pre [post H]]. destruct pre as [|d pre].
      * left. now exists post.
      * right. simpl in H. injection H as _ H. now exists pre, post.
Qed.

End StrFacts.

(** ** Own properties *)

Lemma own_define_same k n ps : own k (define k n ps) = Some n.
Proof.
  induction ps as [|[k' n'] ps IH]; simpl.
  - now rewrite String.eqb_refl.
  - destruct (String.eqb k k') eqn:E; simpl.
    + now rewrite String.eqb_refl.
    + now rewrite E.
Qed.

Lemma own_define_other k k' n ps :
  k' <> k -> own k' (define k n ps) = own k' ps.
Proof.
  intros Hne. induction ps as [|[k0 n0] ps IH]; simpl.
  - apply String.eqb_neq in Hne. now rewrite Hne.
  - destruct (String.eqb_spec k k0) as [->|Hk]; simpl.
    + apply String.eqb_neq in Hne. now rewrite Hne.
    + destruct (String.eqb k' k0); [reflexivity | exact IH].
Qed.

(** A read that gives a folder found an own property. *)
Lemma get_folder_own o k c :
  children_of (get o k) = Some c -> own k (props_of o) = Some (folder c).
Proof.
  unfold get. destruct (own k (props_of o)) as [n|] eqn:E.
  - destruct n; simpl; [discriminate | now intros [= ->]].
  - destruct (proto_of o) as [[[p s] z]|];
      repeat match goal with
             | |- context [if ?b then _ else _] => destruct b
             end; simpl; discriminate.
Qed.

Lemma get_own o k n : own k (props_of o) = Some n -> get o k = VNode n.
Proof. unfold get. now intros ->. Qed.

(** [!current['__proto__']] is never true. *)
Lemma proto_key_truthy o : truthy (get o proto_key) = true.
Proof.
  unfold get. destruct (own proto_key (props_of o)); [reflexivity|].
  destruct (proto_of o) as [[[p s] z]|]; reflexivity.
Qed.

(** ** The walk of one record *)

Lemma walk_step f part r rest current :
  walk f (part :: r :: rest) current =
  match children_of (get (enter current part) part) with
  | Some next =>
      match walk f (r :: rest) next with
      | Ok next' => Ok (put_folder (enter current part) part next')
      | Throw e => Throw e
      end
  | None => Throw TypeErr
  end.
Proof. reflexivity. Qed.

Lemma node_at_step t k r rest :
  node_at t (k :: r :: rest) =
  match own k (props_of t) with
  | Some (folder c) => node_at c (r :: rest)
  | _ => None
  end.
Proof. reflexivity. Qed.

(** Entering [part] either finds an own folder or creates an empty one
    under a name that was not an own property. *)
Lemma enter_folder t part next :
  children_of (get (enter t part) part) = Some next ->
  (enter t part = t /\ own part (props_of t) = Some (folder next)) \/
  (own part (props_of t) = None /\ part <> proto_key /\ next = empty_object /\
   enter t part = put_folder t part empty_object).
Proof.
  unfold enter. destruct (truthy (get t part)) eqn:Ht; simpl; intros H.
  - left. split; [reflexivity | now apply get_folder_own].
  - right. apply get_folder_own in H.
    destruct t as [pr ps]; simpl in *.
    rewrite own_define_same in H. injection H as <-.
    repeat split.
    + unfold get in Ht. simpl in Ht.
      destruct (own part ps); [discriminate | reflexivity].
    + intros ->. now rewrite proto_key_truthy in Ht.
Qed.

Lemma props_put_folder t k c :
  props_of (put_folder t k c) = define k (folder c) (props_of t).
Proof. now destruct t. Qed.

Lemma node_at_put_folder_other t k c ks k' :
  k' <> k -> node_at (put_folder t k c) (k' :: ks) = node_at t (k' :: ks).
Proof.
  intros Hne. destruct ks as [|r rest].
  - simpl. rewrite props_put_folder. now apply own_define_other.
  - rewrite !node_at_step, props_put_folder. now rewrite own_define_other.
Qed.

Lemma node_at_put_folder_same t k c r rest :
  node_at (put_folder t k c) (k :: r :: rest) = node_at c (r :: rest).
Proof. now rewrite node_at_step, props_put_folder, own_define_same. Qed.

Lemma node_at_put_folder_here t k c :
  node_at (put_folder t k c) [k] = Some (folder c).
Proof. simpl. now rewrite props_put_folder, own_define_same. Qed.

Lemma node_at_empty ks : node_at empty_object ks = None.
Proof. destruct ks as [|k [|r rest]]; reflexivity. Qed.

Lemma node_at_put_file t part f ks :
  node_at (put_file t part f) ks =
  if String.eqb part proto_key then node_at t ks
  else match ks with
       | [k] => if String.eqb k part then Some (file_of f) else node_at t ks
       | k :: _ :: _ => if String.eqb k part then None else node_at t ks
       | [] => None
       end.
Proof.
  destruct t as [pr ps]. unfold put_file.
  destruct (String.eqb part proto_key) eqn:E.
  - destruct ks as [|k [|r rest]]; reflexivity.
  - destruct ks as [|k [|r rest]]; [reflexivity | |].
    + simpl. destruct (String.eqb_spec k part) as [->|Hne].
      * now rewrite own_define_same.
      * now rewrite own_define_other.
    + rewrite !node_at_step. simpl.
      destruct (String.eqb_spec k part) as [->|Hne].
      * now rewrite own_define_same.
      * now rewrite own_define_other.
Qed.

(** A file found after the walk is the one just written, or was there
    before. *)
Lemma walk_files f parts : forall t t' ks p s z,
  walk f parts t = Ok t' ->
  node_at t' ks = Some (file p s z) ->
  (ks = parts /\ last parts "" <> proto_key /\ file p s z = file_of f) \/
  node_at t ks = Some (file p s z).
Proof.
  induction parts as [|part [|r rest] IH]; intros t t' ks p s z Hw Hn.
  - injection Hw as <-. now right.
  - injection Hw as <-. rewrite node_at_put_file in Hn.
    destruct (String.eqb part proto_key) eqn:E; [now right|].
    apply String.eqb_neq in E.
    destruct ks as [|k [|r rest]]; [discriminate | |].
    + destruct (String.eqb_spec k part) as [->|Hne]; [|now right].
      left. split; [reflexivity|]. split; [exact E | congruence].
    + destruct (String.eqb k part); [discriminate | now right].
  - rewrite walk_step in Hw.
    destruct (children_of (get (enter t part) part)) as [next|] eqn:Hc;
      [|discriminate].
    destruct (walk f (r :: rest) next) as [next'|e] eqn:Hw'; [|discriminate].
    injection Hw as <-.
    destruct ks as [|k ks]; [discriminate|].
    destruct (String.eqb_spec k part) as [->|Hne].
    + destruct ks as [|r' rest'].
      * rewrite node_at_put_folder_here in Hn. discriminate.
      * rewrite node_at_put_folder_same in Hn.
        destruct (IH _ _ _ _ _ _ Hw' Hn) as [[-> [Hl ->]] | Hold].
        -- left. now repeat split.
        -- right. rewrite node_at_step.
           destruct (enter_folder _ _ _ Hc) as [[_ ->] | [_ [_ [-> _]]]].
           ++ exact Hold.
           ++ now rewrite node_at_empty in Hold.
    + right. rewrite node_at_put_folder_other in Hn by assumption.
      destruct (enter_folder _ _ _ Hc) as [[He _] | [_ [_ [_ He]]]];
        rewrite He in Hn.
      * exact Hn.
      * now rewrite node_at_put_folder_other in Hn.
Qed.

(** After the walk the record is at its place, unless its name is
    [__proto__]. *)
Lemma walk_writes f parts : forall t t',
  parts <> [] ->
  last parts "" <> proto_key ->
  walk f parts t = Ok t' ->
  node_at t' parts = Some (file_of f).
Proof.
  induction parts as [|part [|r rest] IH]; intros t t' Hne Hl Hw.
  - contradiction.
  - injection Hw as <-. rewrite node_at_put_file.
    simpl in Hl. apply String.eqb_neq in Hl. rewrite Hl.
    now rewrite String.eqb_refl.
  - rewrite walk_step in Hw.
    destruct (children_of (get (enter t part) part)) as [next|] eqn:Hc;
      [|discriminate].
    destruct (walk f (r :: rest) next) as [next'|e] eqn:Hw'; [|discriminate].
    injection Hw as <-. rewrite node_at_put_folder_same.
    apply (IH next); [discriminate | exact Hl | exact Hw'].
Qed.

(** A walk to a place that holds a node does not throw. *)
Lemma walk_to_node f parts : forall t n,
  node_at t parts = Some n -> exists t', walk f parts t = Ok t'.
Proof.
  induction parts as [|part [|r rest] IH]; intros t n Hn.
  - discriminate.
  - eexists. reflexivity.
  - rewrite node_at_step in Hn.
    destruct (own part (props_of t)) as [[|c]|] eqn:Ho; try discriminate.
    rewrite walk_step. unfold enter.
    rewrite (get_own _ _ _ Ho). cbn [truthy negb].
    rewrite (get_own _ _ _ Ho). cbn [children_of].
    destruct (IH _ _ Hn) as [c' ->]. eexists. reflexivity.
Qed.

(** ** The tree after any number of records *)

Section Builder.

Variable excludedPaths : list string.

Lemma buildFileTree_snoc files f :
  buildFileTree excludedPaths (files ++ [f]) =
  match buildFileTree excludedPaths files with
  | Ok tree => add_file excludedPaths tree f
  | Throw e => Throw e
  end.
Proof. unfold buildFileTree. now rewrite fold_left_app. Qed.

Lemma retained_snoc files f :
  retained excludedPaths (files ++ [f]) =
  retained excludedPaths files ++
  (if is_excluded excludedPaths f then [] else [f]).
Proof.
  unfold retained. rewrite filter_app. simpl.
  now destruct (is_excluded excludedPaths f).
Qed.

Lemma latest_snoc files f p :
  latest excludedPaths (files ++ [f]) p =
  if negb (is_excluded excludedPaths f) && String.eqb (path f) p
  then Some f else latest excludedPaths files p.
Proof.
  unfold latest. rewrite retained_snoc, rev_app_distr.
  destruct (is_excluded excludedPaths f); simpl; [reflexivity|].
  now destruct (String.eqb (path f) p).
Qed.

Lemma latest_retained files p f :
  latest excludedPaths files p = Some f ->
  In f files /\ is_excluded excludedPaths f = false /\ path f = p.
Proof.
  unfold latest. intros H. apply find_some in H. destruct H as [Hin Hp].
  apply in_rev in Hin. unfold retained in Hin. apply filter_In in Hin.
  destruct Hin as [Hin Hex]. apply negb_true_iff in Hex.
  apply String.eqb_eq in Hp. now repeat split.
Qed.

Lemma files_from_add files tree tree' f :
  files_from excludedPaths files tree ->
  add_file excludedPaths tree f = Ok tree' ->
  files_from excludedPaths (files ++ [f]) tree'.
Proof.
  intros Inv Hadd ks p s z Hn. unfold add_file in Hadd.
  rewrite latest_snoc.
  destruct (is_excluded excludedPaths f) eqn:Hex.
  - injection Hadd as <-. simpl. exact (Inv _ _ _ _ Hn).
  - simpl.
    destruct (walk_files _ _ _ _ _ _ _ _ Hadd Hn) as [[-> [Hl Hf]] | Hold].
    + injection Hf as -> -> ->. rewrite String.eqb_refl.
      split; [reflexivity|]. split; [exact Hl|]. now exists f.
    + destruct (Inv _ _ _ _ Hold) as [-> [Hl [f0 [Hlat Hf0]]]].
      split; [reflexivity|]. split; [exact Hl|].
      destruct (String.eqb_spec (path f) p) as [<-|Hne].
      * exists f. split; [reflexivity|].
        pose proof (walk_writes _ _ _ _ (StrFacts.split_not_nil _ _) Hl Hadd).
        congruence.
      * now exists f0.
Qed.

Lemma buildFileTree_files_from files : forall tree,
  buildFileTree excludedPaths files = Ok tree ->
  files_from excludedPaths files tree.
Proof.
  induction files as [|f files IH] using rev_ind; intros tree Hb.
  - injection Hb as <-. intros ks p s z Hn.
    now rewrite node_at_empty in Hn.
  - rewrite buildFileTree_snoc in Hb.
    destruct (buildFileTree excludedPaths files) as [t|e]; [|discriminate].
    eapply files_from_add; [now apply IH | exact Hb].
Qed.

End Builder.

Lemma map_injective_on {A B : Type} (g : A -> B) (l : list A) x y :
  NoDup (map g l) -> In x l -> In y l -> g x = g y -> x = y.
Proof.
  induction l as [|a l IH]; simpl; intros Hnd Hx Hy Hg; [contradiction|].
  inversion Hnd as [|? ? Hnotin Hnd']; subst.
  destruct Hx as [->|Hx], Hy as [->|Hy]; try reflexivity.
  - exfalso. apply Hnotin. rewrite Hg. now apply in_map.
  - exfalso. apply Hnotin. rewrite <- Hg. now apply in_map.
  - now apply IH.
Qed.

Lemma in_define k n ps k' n' :
  In (k', n') (define k n ps) -> (k', n') = (k, n) \/ In (k', n') ps.
Proof.
  induction ps as [|[k0 n0] ps IH]; simpl.
  - intros [H|[]]. now left.
  - destruct (String.eqb k k0); simpl.
    + intros [H|H]; [now left | now right; right].
    + intros [H|H]; [now right; left |].
      destruct (IH H) as [E|E]; [now left | now right; right].
Qed.

Lemma own_in k n ps : own k ps = Some n -> In (k, n) ps.
Proof.
  induction ps as [|[k0 n0] ps IH]; simpl; [discriminate|].
  destruct (String.eqb_spec k k0) as [->|Hne].
  - intros [= ->]. now left.
  - intros H. right. now apply IH.
Qed.

Lemma protoless_empty : protoless empty_object.
Proof. constructor. intros k c []. Qed.

Lemma protoless_put_folder t k c :
  protoless t -> protoless c -> protoless (put_folder t k c).
Proof.
  intros Ht Hc. destruct Ht as [ps Hps]. simpl. constructor.
  intros k' c' Hin. apply in_define in Hin. destruct Hin as [E|Hin].
  - now injection E as -> ->.
  - now apply (Hps k').
Qed.

Lemma protoless_child t k c :
  protoless t -> own k (props_of t) = Some (folder c) -> protoless c.
Proof.
  intros [ps Hps] Ho. simpl in Ho. apply own_in in Ho. now apply (Hps k).
Qed.

Lemma protoless_enter t part : protoless t -> protoless (enter t part).
Proof.
  intros Ht. unfold enter. destruct (negb (truthy (get t part))).
  - apply protoless_put_folder; [assumption | apply protoless_empty].
  - assumption.
Qed.

Lemma walk_protoless f parts : forall t t',
  last parts "" <> proto_key ->
  protoless t -> walk f parts t = Ok t' -> protoless t'.
Proof.
  induction parts as [|part [|r rest] IH]; intros t t' Hl Ht Hw.
  - now injection Hw as <-.
  - injection Hw as <-. destruct Ht as [ps Hps]. unfold put_file.
    simpl in Hl. apply String.eqb_neq in Hl. rewrite Hl. constructor.
    intros k c Hin. apply in_define in Hin. destruct Hin as [E|Hin].
    + discriminate.
    + now apply (Hps k).
  - rewrite walk_step in Hw.
    destruct (children_of (get (enter t part) part)) as [next|] eqn:Hc;
      [|discriminate].
    destruct (walk f (r :: rest) next) as [next'|e] eqn:Hw'; [|discriminate].
    injection Hw as <-.
    apply protoless_put_folder; [now apply protoless_enter|].
    apply (IH next); [exact Hl | | exact Hw'].
    apply get_folder_own in Hc.
    eapply protoless_child; [apply protoless_enter, Ht | exact Hc].
Qed.

(** In an object without own property [k] and with the standard prototype,
    a plain name reads as [undefined]. *)
Lemma get_plain_undefined ps k :
  plain_name k = true -> own k ps = None -> get (object None ps) k = VUndefined.
Proof.
  unfold plain_name, get. simpl. intros Hp ->.
  apply andb_true_iff in Hp. destruct Hp as [H1 H2].
  apply negb_true_iff in H1, H2. now rewrite H1, H2.
Qed.

(** The walk succeeds when the folders on the way have plain names and no
    place on the way holds a file. *)
Lemma walk_succeeds f parts : forall t,
  protoless t ->
  forallb plain_name (removelast parts) = true ->
  (forall pre suf p s z,
      parts = pre ++ suf -> suf <> [] -> node_at t pre <> Some (file p s z)) ->
  exists t', walk f parts t = Ok t'.
Proof.
  induction parts as [|part [|r rest] IH]; intros t Ht Hplain Hfree.
  - eexists. reflexivity.
  - eexists. reflexivity.
  - rewrite walk_step.
    change (removelast (part :: r :: rest))
      with (part :: removelast (r :: rest)) in Hplain.
    simpl forallb in Hplain. apply andb_true_iff in Hplain.
    destruct Hplain as [Hp Hplain].
    assert (Hnext : exists next,
               children_of (get (enter t part) part) = Some next /\
               protoless next /\
               forall pre, pre <> [] -> node_at next pre = node_at t (part :: pre)).
    { destruct (own part (props_of t)) as [[p s z|c]|] eqn:Ho.
      - exfalso. apply (Hfree [part] (r :: rest) p s z);
          [reflexivity | discriminate | exact Ho].
      - exists c. unfold enter. rewrite (get_own _ _ _ Ho). cbn [truthy negb].
        rewrite (get_own _ _ _ Ho). split; [reflexivity|]. split.
        + eapply protoless_child; eassumption.
        + intros [|k pre] Hne; [contradiction|].
          rewrite node_at_step. now rewrite Ho.
      - exists empty_object. destruct Ht as [ps Hps]. simpl in Ho.
        unfold enter. rewrite (get_plain_undefined _ _ Hp Ho).
        cbn [truthy negb].
        rewrite (get_own _ _ (folder empty_object))
          by (simpl; apply own_define_same).
        split; [reflexivity|]. split; [apply protoless_empty|].
        intros [|k pre] Hne; [contradiction|].
        rewrite node_at_empty, node_at_step. simpl. now rewrite Ho. }
    destruct Hnext as [next [-> [Hpn Hsame]]].
    destruct (IH next Hpn Hplain) as [next' ->].
    + intros pre suf p s z Hparts Hsuf.
      destruct pre as [|k pre].
      * destruct next as [pr0 ps0]. discriminate.
      * rewrite Hsame by discriminate.
        apply Hfree with (suf := suf); [|assumption].
        simpl. now rewrite Hparts.
    + eexists. reflexivity.
Qed.

(** A file that is not at or below the place written stays. *)
Lemma walk_keeps f parts : forall t t' ks p s z,
  walk f parts t = Ok t' ->
  node_at t ks = Some (file p s z) ->
  starts_with ks parts = false ->
  node_at t' ks = Some (file p s z).
Proof.
  induction parts as [|part [|r rest] IH]; intros t t' ks p s z Hw Hn Hs.
  - now injection Hw as <-.
  - injection Hw as <-. rewrite node_at_put_file.
    destruct (String.eqb part proto_key); [exact Hn|].
    destruct ks as [|k [|r rest]]; [discriminate | |];
      simpl in Hs; rewrite andb_true_r in Hs;
      rewrite String.eqb_sym in Hs; now rewrite Hs.
  - rewrite walk_step in Hw.
    destruct (children_of (get (enter t part) part)) as [next|] eqn:Hc;
      [|discriminate].
    destruct (walk f (r :: rest) next) as [next'|e] eqn:Hw'; [|discriminate].
    injection Hw as <-.
    destruct ks as [|k ks]; [discriminate|].
    destruct (String.eqb_spec k part) as [->|Hne].
    + destruct (enter_folder _ _ _ Hc) as [[He Ho] | [Ho _]].
      * destruct ks as [|r' rest'].
        -- simpl in Hn. congruence.
        -- rewrite node_at_put_folder_same.
           rewrite node_at_step, Ho in Hn.
           apply (IH next); [exact Hw' | exact Hn |].
           simpl in Hs. rewrite String.eqb_refl in Hs. exact Hs.
      * destruct ks as [|r' rest'].
        -- simpl in Hn. congruence.
        -- rewrite node_at_step, Ho in Hn. discriminate.
    + rewrite node_at_put_folder_other by assumption.
      destruct (enter_folder _ _ _ Hc) as [[He _] | [_ [_ [_ He]]]];
        rewrite He; [exact Hn|].
      now rewrite node_at_put_folder_other.
Qed.

Lemma starts_with_refl l : starts_with l l = true.
Proof.
  induction l as [|x l IH]; simpl; [reflexivity|].
  now rewrite String.eqb_refl.
Qed.

Lemma starts_with_app l pre :
  starts_with l pre = true <-> exists suf, l = pre ++ suf.
Proof.
  revert l. induction pre as [|p pre IH]; intros l; simpl.
  - split; [intros _; now exists l | now destruct l].
  - destruct l as [|x l].
    + split; [discriminate | intros [suf H]; discriminate].
    + simpl. rewrite andb_true_iff, IH. split.
      * intros [Hp [suf ->]]. apply String.eqb_eq in Hp. subst.
        now exists suf.
      * intros [suf H]. injection H as -> ->.
        split; [apply String.eqb_refl | now exists suf].
Qed.

Lemma starts_with_same_length l pre :
  starts_with l pre = true -> length l = length pre -> l = pre.
Proof.
  intros H Hlen. apply starts_with_app in H. destruct H as [suf ->].
  rewrite length_app in Hlen. destruct suf; [now rewrite app_nil_r|].
  simpl in Hlen. lia.
Qed.

Section Orderly.

Variable excludedPaths : list string.

Lemma orderly_spec files :
  orderly excludedPaths files = true <->
  (forall f, In f (retained excludedPaths files) ->
             walkable (parts_of f) = true) /\
  (forall f g, In f (retained excludedPaths files) ->
               In g (retained excludedPaths files) ->
               continues (parts_of f) (parts_of g) = false).
Proof.
  unfold orderly. rewrite andb_true_iff, !forallb_forall. split.
  - intros [Hw Hc]. split.
    + intros f Hf. apply Hw. now apply (in_map parts_of).
    + intros f g Hf Hg.
      specialize (Hc (parts_of f) (in_map parts_of _ _ Hf)).
      rewrite forallb_forall in Hc.
      specialize (Hc (parts_of g) (in_map parts_of _ _ Hg)).
      now apply negb_true_iff in Hc.
  - intros [Hw Hc]. split.
    + intros a Ha. apply in_map_iff in Ha. destruct Ha as [f [<- Hf]].
      now apply Hw.
    + intros a Ha. apply in_map_iff in Ha. destruct Ha as [f [<- Hf]].
      apply forallb_forall. intros b Hb.
      apply in_map_iff in Hb. destruct Hb as [g [<- Hg]].
      apply negb_true_iff. now apply Hc.
Qed.

Lemma orderly_front files f :
  orderly excludedPaths (files ++ [f]) = true ->
  orderly excludedPaths files = true.
Proof.
  rewrite !orderly_spec, retained_snoc. intros [Hw Hc]. split.
  - intros g Hg. apply Hw, in_or_app. now left.
  - intros g h Hg Hh. apply Hc; apply in_or_app; now left.
Qed.

Lemma orderly_build files :
  orderly excludedPaths files = true ->
  exists tree,
    buildFileTree excludedPaths files = Ok tree /\
    protoless tree /\ all_present excludedPaths files tree.
Proof.
  induction files as [|f files IH] using rev_ind; intros Hord.
  - exists empty_object. split; [reflexivity|].
    split; [apply protoless_empty | intros f []].
  - destruct (IH (orderly_front _ _ Hord)) as [tree [Hb [Hpl Hall]]].
    rewrite buildFileTree_snoc, Hb. unfold add_file.
    apply orderly_spec in Hord. destruct Hord as [Hw Hc].
    rewrite retained_snoc in Hw, Hc.
    destruct (is_excluded excludedPaths f) eqn:Hex.
    + exists tree. split; [reflexivity|]. split; [assumption|].
      intros g Hg. rewrite retained_snoc, Hex, app_nil_r in Hg.
      rewrite latest_snoc, Hex. simpl. now apply Hall.
    + assert (Hf : In f (retained excludedPaths files ++ [f]))
        by (apply in_or_app; right; now left).
      pose proof (Hw f Hf) as Hwf. unfold walkable in Hwf.
      apply andb_true_iff in Hwf. destruct Hwf as [Hplain Hlast].
      apply negb_true_iff, String.eqb_neq in Hlast.
      destruct (walk_succeeds f (parts_of f) tree Hpl Hplain) as [tree' Hwalk].
      { intros pre suf p s z Hparts Hsuf Hn.
        destruct (buildFileTree_files_from _ _ _ Hb _ _ _ _ Hn)
          as [Hpre [_ [g [Hlat _]]]].
        destruct (latest_retained _ _ _ _ Hlat) as [Hgin [Hgex Hgp]].
        assert (Hg : In g (retained excludedPaths files ++ [f])).
        { apply in_or_app. left. apply filter_In. now rewrite Hgex. }
        pose proof (Hc g f Hg Hf) as Hcont. unfold continues in Hcont.
        assert (Hgparts : parts_of g = pre)
          by (unfold parts_of; now rewrite Hgp).
        rewrite Hgparts, Hparts in Hcont.
        rewrite (proj2 (starts_with_app _ _)) in Hcont by now exists suf.
        simpl in Hcont. apply negb_false_iff, Nat.eqb_eq in Hcont.
        rewrite length_app in Hcont. destruct suf; [contradiction|].
        simpl in Hcont. lia. }
      exists tree'. fold (parts_of f). rewrite Hwalk.
      split; [reflexivity|]. split.
      { eapply walk_protoless; eassumption. }
      intros g Hg. rewrite latest_snoc, Hex. simpl.
      destruct (String.eqb_spec (path f) (path g)) as [Hsame|Hdiff].
      * exists f. split; [reflexivity|]. unfold parts_of. rewrite <- Hsame.
        apply walk_writes with (t := tree);
          [apply StrFacts.split_not_nil | exact Hlast | exact Hwalk].
      * rewrite retained_snoc, Hex in Hg. apply in_app_or in Hg.
        destruct Hg as [Hg | [<- | []]]; [|contradiction].
        destruct (Hall g Hg) as [h [Hlat Hn]]. exists h.
        split; [exact Hlat|]. unfold file_of in *.
        apply walk_keeps with (f := f) (parts := parts_of f) (t := tree);
          [exact Hwalk | exact Hn |].
        destruct (starts_with (parts_of g) (parts_of f)) eqn:Hs;
          [|reflexivity].
        exfalso.
        assert (Hg' : In g (retained excludedPaths files ++ [f]))
          by (apply in_or_app; now left).
        pose proof (Hc f g Hf Hg') as Hcont. unfold continues in Hcont.
        rewrite Hs in Hcont. simpl in Hcont.
        apply negb_false_iff, Nat.eqb_eq in Hcont.
        apply Hdiff. symmetry.
        apply (StrFacts.split_injective slash).
        now apply starts_with_same_length.
Qed.

End Orderly.

(** ** Sorting *)

Section Sorting.

Variable comparefn : string -> string -> Z.
Hypothesis comparefn_total :
  forall a b, (0 < comparefn a b -> comparefn b a <= 0)%Z.
Hypothesis comparefn_trans :
  forall a b c,
    (comparefn a b <= 0 -> comparefn b c <= 0 -> comparefn a c <= 0)%Z.

Let le (a b : string) : Prop := (comparefn a b <= 0)%Z.

Lemma sort_insert_perm a l : Permutation (a :: l) (sort_insert comparefn a l).
Proof.
  induction l as [|b l IH]; simpl; [reflexivity|].
  destruct (comparefn a b <=? 0)%Z; [reflexivity|].
  rewrite perm_swap. now constructor.
Qed.

Lemma sort_perm l : Permutation l (sort comparefn l).
Proof.
  induction l as [|a l IH]; simpl; [reflexivity|].
  rewrite <- sort_insert_perm. now constructor.
Qed.

Lemma sort_insert_sorted a l :
  StronglySorted le l -> StronglySorted le (sort_insert comparefn a l).
Proof.
  induction 1 as [|b l Hs IH Hb]; simpl.
  - constructor; constructor.
  - destruct (comparefn a b <=? 0)%Z eqn:E.
    + apply Z.leb_le in E. constructor.
      * now constructor.
      * constructor; [exact E|].
        eapply Forall_impl; [|exact Hb].
        intros c Hc. now apply (comparefn_trans a b c).
    + apply Z.leb_gt in E. constructor; [exact IH|].
      rewrite <- sort_insert_perm. constructor; [|exact Hb].
      now apply comparefn_total.
Qed.

Lemma sort_sorted l : StronglySorted le (sort comparefn l).
Proof.
  induction l as [|a l IH]; simpl; [constructor|].
  now apply sort_insert_sorted.
Qed.

End Sorting.

(** ** The keys of an object *)

Lemma insert_index_perm e l : Permutation (e :: l) (insert_index e l).
Proof.
  induction l as [|e' l IH]; simpl; [reflexivity|].
  destruct (fst e <=? fst e')%N; [reflexivity|].
  rewrite perm_swap. now constructor.
Qed.

Lemma Object_keys_perm o : Permutation (Object_keys o) (map fst (props_of o)).
Proof.
  unfold Object_keys.
  assert (H : Permutation
                (map snd (fold_right insert_index [] (index_keys (props_of o))))
                (map snd (index_keys (props_of o)))).
  { apply Permutation_map.
    induction (index_keys (props_of o)) as [|e l IH]; simpl; [reflexivity|].
    rewrite <- insert_index_perm. now constructor. }
  rewrite H. clear H.
  induction (props_of o) as [|[k n] ps IH]; simpl; [reflexivity|].
  destruct (array_index k); simpl.
  - now constructor.
  - rewrite <- Permutation_middle. now constructor.
Qed.

Lemma own_key k ps : In k (map fst ps) -> exists n, own k ps = Some n.
Proof.
  induction ps as [|[k0 n0] ps IH]; simpl; [contradiction|].
  destruct (String.eqb_spec k k0) as [->|Hne].
  - intros _. now exists n0.
  - intros [H|H]; [congruence | now apply IH].
Qed.

(** [tree[name]] is a node for every name of [Object.keys(tree)]. *)
Lemma get_Object_key tree name :
  In name (Object_keys tree) -> exists n, get tree name = VNode n.
Proof.
  intros H. apply (Permutation_in _ (Object_keys_perm tree)) in H.
  destruct (own_key _ _ H) as [n Hn]. exists n. now apply get_own.
Qed.

(** ** The order of one level *)

Section Order.

Variable localeCompare : string -> string -> Z.
Hypothesis localeCompare_total :
  forall a b, (0 < localeCompare a b -> localeCompare b a <= 0)%Z.
Hypothesis localeCompare_trans :
  forall a b c,
    (localeCompare a b <= 0 -> localeCompare b c <= 0 ->
     localeCompare a c <= 0)%Z.

Lemma compare_entries_total tree a b :
  (0 < compare_entries localeCompare tree a b ->
   compare_entries localeCompare tree b a <= 0)%Z.
Proof.
  unfold compare_entries.
  destruct (is_folder (get tree a)), (is_folder (get tree b)); simpl;
    try lia; apply localeCompare_total.
Qed.

Lemma compare_entries_trans tree a b c :
  (compare_entries localeCompare tree a b <= 0 ->
   compare_entries localeCompare tree b c <= 0 ->
   compare_entries localeCompare tree a c <= 0)%Z.
Proof.
  unfold compare_entries.
  destruct (is_folder (get tree a)), (is_folder (get tree b)),
    (is_folder (get tree c)); simpl; try lia; apply localeCompare_trans.
Qed.

(** What the comparison function says of two names is the order of the
    claim. *)
Lemma compare_entries_before tree a b :
  (compare_entries localeCompare tree a b <= 0)%Z <->
  (is_folder (get tree a) = true /\ is_folder (get tree b) = false) \/
  (is_folder (get tree a) = is_folder (get tree b) /\
   (localeCompare a b <= 0)%Z).
Proof.
  unfold compare_entries.
  destruct (is_folder (get tree a)), (is_folder (get tree b)); simpl;
    intuition (try lia; try discriminate).
Qed.

(** The list element of one name. *)
Let render (fuel : nat) (tree : obj) (prefix name : string) : list li :=
  match get tree name with
  | VNode (folder c) =>
      [tree_folder name
         (createTreeElement localeCompare fuel c (prefix ++ name ++ "/"))]
  | VNode (file p _ z) => [tree_file name p z]
  | _ => []
  end.

Lemma render_node fuel tree prefix name n :
  get tree name = VNode n ->
  exists e, render fuel tree prefix name = [e] /\
            li_name e = name /\ li_is_folder e = is_folder (get tree name).
Proof.
  intros H. unfold render. rewrite H. destruct n as [p s z|c]; eexists; eauto.
Qed.

Lemma render_names fuel tree prefix names :
  (forall name, In name names -> exists n, get tree name = VNode n) ->
  map li_name (flat_map (render fuel tree prefix) names) = names.
Proof.
  induction names as [|a names IH]; intros Hn; simpl; [reflexivity|].
  destruct (Hn a (or_introl eq_refl)) as [n Ha].
  destruct (render_node fuel tree prefix a n Ha) as [e [-> [He _]]].
  simpl. rewrite He, IH; [reflexivity|].
  intros name Hin. apply Hn. now right.
Qed.

Lemma render_sorted fuel tree prefix names :
  (forall name, In name names -> exists n, get tree name = VNode n) ->
  StronglySorted
    (fun a b => (compare_entries localeCompare tree a b <= 0)%Z) names ->
  StronglySorted (li_before localeCompare)
    (flat_map (render fuel tree prefix) names).
Proof.
  intros Hn Hs. induction Hs as [|a names Hs IH Ha]; simpl; [constructor|].
  destruct (Hn a (or_introl eq_refl)) as [n Hga].
  destruct (render_node fuel tree prefix a n Hga) as [e [-> [He Hf]]].
  simpl. constructor.
  - apply IH. intros name Hin. apply Hn. now right.
  - apply Forall_forall. intros y Hy. apply in_flat_map in Hy.
    destruct Hy as [b [Hb Hy]].
    destruct (Hn b (or_intror Hb)) as [nb Hgb].
    destruct (render_node fuel tree prefix b nb Hgb) as [e' [Hr [He' Hf']]].
    rewrite Hr in Hy. destruct Hy as [<-|[]].
    rewrite Forall_forall in Ha. specialize (Ha b Hb).
    apply compare_entries_before in Ha.
    unfold li_before. now rewrite He, He', Hf, Hf'.
Qed.

Lemma createTreeElement_S fuel tree prefix :
  createTreeElement localeCompare (S fuel) tree prefix =
  flat_map (render fuel tree prefix) (entries localeCompare tree).
Proof. reflexivity. Qed.

Lemma entries_keys tree name :
  In name (entries localeCompare tree) ->
  exists n, get tree name = VNode n.
Proof.
  intros H. apply get_Object_key.
  eapply Permutation_in; [symmetry; apply sort_perm | exact H].
Qed.

Lemma createTreeElement_ordered fuel : forall tree prefix,
  ordered_levels localeCompare (createTreeElement localeCompare fuel tree prefix).
Proof.
  induction fuel as [|fuel IH]; intros tree prefix.
  - simpl. constructor; [constructor | intros ? ? []].
  - rewrite createTreeElement_S. constructor.
    + apply render_sorted; [apply entries_keys|].
      apply sort_sorted.
      * apply compare_entries_total.
      * apply compare_entries_trans.
    + intros name children Hin. apply in_flat_map in Hin.
      destruct Hin as [a [_ Hin]]. unfold render in Hin.
      destruct (get tree a) as [|[p s z|c]| | |]; simpl in Hin;
        try contradiction.
      * destruct Hin as [H|[]]. discriminate.
      * destruct Hin as [H|[]]. injection H as _ <-. apply IH.
Qed.

End Order.

Lemma own_depth k ps n :
  own k ps = Some n ->
  node_depth n <= list_max (map (fun kn => node_depth (snd kn)) ps).
Proof.
  induction ps as [|[k0 n0] ps IH]; simpl; [discriminate|].
  destruct (String.eqb k k0).
  - intros [= ->]. lia.
  - intros H. specialize (IH H). lia.
Qed.

Lemma createTreeElement_fuel lc : forall fuel1 fuel2 tree prefix1 prefix2,
  obj_depth tree < fuel1 -> obj_depth tree < fuel2 ->
  createTreeElement lc fuel1 tree prefix1 =
  createTreeElement lc fuel2 tree prefix2.
Proof.
  induction fuel1 as [|fuel1 IH]; intros [|fuel2] tree prefix1 prefix2 H1 H2;
    try lia.
  simpl. apply flat_map_ext. intros name.
  destruct (get tree name) as [|[p s z|c]| | |] eqn:Hg; try reflexivity.
  assert (Ho : own name (props_of tree) = Some (folder c))
    by (apply get_folder_own; now rewrite Hg).
  apply own_depth in Ho. simpl in Ho. unfold obj_depth in *.
  f_equal. f_equal. apply IH; unfold obj_depth; lia.
Qed.

(** With more fuel than the nesting, the rendering is complete. *)
Lemma createTreeElement_renders lc : forall fuel tree prefix,
  obj_depth tree < fuel ->
  renders lc tree (createTreeElement lc fuel tree prefix).
Proof.
  induction fuel as [|fuel IH]; intros tree prefix Hd; [lia|].
  constructor.
  - rewrite createTreeElement_S. apply render_names, entries_keys.
  - intros name children Hin. simpl in Hin. apply in_flat_map in Hin.
    destruct Hin as [a [_ Hin]].
    destruct (get tree a) as [|[p s z|c]| | |] eqn:Hg; simpl in Hin;
      try contradiction; destruct Hin as [H|[]]; [discriminate|].
    injection H as <- <-. exists c. split; [exact Hg|].
    apply IH.
    assert (Ho : own a (props_of tree) = Some (folder c))
      by (apply get_folder_own; now rewrite Hg).
    apply own_depth in Ho. simpl in Ho. unfold obj_depth in *. lia.
Qed.

(** ** The controller *)

Lemma fetchRepositoryTree_eq net st :
  fetchRepositoryTree net st =
  let st1 := sending BranchLookup (branchUrl (this st)) st in
  match branches net (length (sent st)) (branchUrl (this st)) with
  | Rejected => (Throw NetworkFailure, st1)
  | Resolved false statusText _ =>
      if is_main st
      then fetchRepositoryTree net (set_branch "master" st1)
      else (Throw (Error ("Failed to fetch branch: " ++ statusText)), st1)
  | Resolved true _ None => (Throw SyntaxErr, st1)
  | Resolved true _ (Some treeSha) => fetch_listing net treeSha st1
  end.
Proof.
  simp fetchRepositoryTree. cbv zeta.
  destruct (branches net (length (sent st)) (branchUrl (this st)))
    as [|[] statusText [treeSha|]];
    destruct (Logic.inspect (is_main st)) as [[] Hb];
    simp fetchRepositoryTree; try rewrite Hb; reflexivity.
Qed.

(** One attempt: what [fetchRepositoryTree] does when it does not call
    itself. *)
Lemma fetchRepositoryTree_once net st :
  not_ok (branches net (length (sent st)) (branchUrl (this st))) && is_main st
  = false ->
  fetchRepositoryTree net st =
  let st1 := sending BranchLookup (branchUrl (this st)) st in
  match branches net (length (sent st)) (branchUrl (this st)) with
  | Rejected => (Throw NetworkFailure, st1)
  | Resolved false statusText _ =>
      (Throw (Error ("Failed to fetch branch: " ++ statusText)), st1)
  | Resolved true _ None => (Throw SyntaxErr, st1)
  | Resolved true _ (Some treeSha) => fetch_listing net treeSha st1
  end.
Proof.
  intros H. rewrite fetchRepositoryTree_eq. cbv zeta.
  destruct (branches net (length (sent st)) (branchUrl (this st)))
    as [|[] statusText [treeSha|]]; try reflexivity;
    simpl in H; now rewrite H.
Qed.

(** The fallback: the branch becomes ['master'] and one more attempt is
    made, which cannot fall back again. *)
Lemma fetchRepositoryTree_fallback net st :
  not_ok (branches net (length (sent st)) (branchUrl (this st))) && is_main st
  = true ->
  fetchRepositoryTree net st =
  fetchRepositoryTree net
    (set_branch "master" (sending BranchLookup (branchUrl (this st)) st)) /\
  is_main (set_branch "master" (sending BranchLookup (branchUrl (this st)) st))
  = false.
Proof.
  intros H. split; [|reflexivity].
  rewrite fetchRepositoryTree_eq at 1. cbv zeta.
  apply andb_true_iff in H. destruct H as [H1 H2].
  destruct (branches net (length (sent st)) (branchUrl (this st)))
    as [|[] statusText [treeSha|]]; try discriminate; now rewrite H2.
Qed.

Lemma fetch_listing_sent net sha st :
  sent (snd (fetch_listing net sha st)) =
  sent st ++ [{| endpoint_of := TreeListing; url := treeUrl (this st) sha |}] /\
  this (snd (fetch_listing net sha st)) = this st.
Proof.
  unfold fetch_listing.
  destruct (trees net (length (sent st)) (treeUrl (this st) sha))
    as [|[] statusText [tree|]]; split; reflexivity.
Qed.

(** The requests of an attempt that does not fall back: one branch request,
    and the tree request when the branch was found. *)
Lemma fetchRepositoryTree_once_sent net st :
  not_ok (branches net (length (sent st)) (branchUrl (this st))) && is_main st
  = false ->
  exists rest,
    sent (snd (fetchRepositoryTree net st)) =
    sent st ++ {| endpoint_of := BranchLookup; url := branchUrl (this st) |}
            :: rest /\
    branch_lookups rest = [] /\
    this (snd (fetchRepositoryTree net st)) = this st.
Proof.
  intros H. rewrite (fetchRepositoryTree_once _ _ H). cbv zeta.
  destruct (branches net (length (sent st)) (branchUrl (this st)))
    as [|[] statusText [treeSha|]];
    try (exists []; repeat split; reflexivity).
  destruct (fetch_listing_sent net treeSha
              (sending BranchLookup (branchUrl (this st)) st)) as [Hs Ht].
  eexists. rewrite Hs, Ht. simpl. rewrite <- app_assoc. simpl.
  repeat split; reflexivity.
Qed.

(** After [fetchRepositoryTree] only the panel and the tree change. *)
Lemma loadRepository_state net lc st :
  let r := fetchRepositoryTree net st in
  sent (snd (loadRepository net lc st)) = sent (snd r) /\
  branch (this (snd (loadRepository net lc st))) = branch (this (snd r)) /\
  owner (this (snd (loadRepository net lc st))) = owner (this (snd r)) /\
  repo (this (snd (loadRepository net lc st))) = repo (this (snd r)) /\
  (forall e, fst r = Throw e ->
             panel (this (snd (loadRepository net lc st)))
             = ErrorView load_failure) /\
  (forall files,
      fst r = Ok files ->
      match buildFileTree (excludedPaths (this (snd r))) files with
      | Ok tree =>
          this (snd (loadRepository net lc st)) =
          this (set_panel
                  (TreeView (createTreeElement lc (S (obj_depth tree)) tree ""))
                  (set_fileTree tree (snd r)))
      | Throw _ =>
          panel (this (snd (loadRepository net lc st))) = ErrorView load_failure
      end).
Proof.
  cbv zeta. unfold loadRepository, try_catch, bind, field, lift, update,
    renderFileTree, showError, throw.
  destruct (fetchRepositoryTree net st) as [[files|e] st1]; simpl.
  - repeat split.
    1-4: destruct (buildFileTree (excludedPaths (this st1)) files);
      reflexivity.
    + intros e [=].
    + intros files' [= <-].
      destruct (buildFileTree (excludedPaths (this st1)) files); reflexivity.
  - repeat split. intros files [=].
Qed.

(** An attempt that is not ok, or rejected, throws unless it falls back. *)
Lemma fetchRepositoryTree_once_fails net st :
  is_main st = false ->
  not_ok (branches net (length (sent st)) (branchUrl (this st))) = true \/
  branches net (length (sent st)) (branchUrl (this st)) = Rejected ->
  exists e,
    fst (fetchRepositoryTree net st) = Throw e /\
    sent (snd (fetchRepositoryTree net st)) =
    sent st ++ [{| endpoint_of := BranchLookup; url := branchUrl (this st) |}].
Proof.
  intros Hm H. rewrite fetchRepositoryTree_once by (rewrite Hm; apply andb_false_r).
  cbv zeta.
  destruct (branches net (length (sent st)) (branchUrl (this st)))
    as [|[] statusText [treeSha|]]; simpl in *;
    try (eexists; split; reflexivity);
    destruct H; discriminate.
Qed.

Lemma selectFile_eq net p sz st :
  selectFile net p sz st =
  let st0 := set_selected p st in
  if (sz >? maxFileSize (this st))%Z
  then (Ok tt, set_viewer (Notice (too_large sz)) st0)
  else
    match fetchFileContent net p (set_viewer (Notice "Loading file...") st0) with
    | (Ok content, st2) => (Ok tt, set_viewer (FileView p content) st2)
    | (Throw _, st2) => (Ok tt, set_viewer (Notice file_failure) st2)
    end.
Proof.
  unfold selectFile, bind, update, field, showFileViewer, try_catch,
    displayFile. simpl.
  destruct (sz >? maxFileSize (this st))%Z; [reflexivity|].
  now destruct (fetchFileContent net p
                  (set_viewer (Notice "Loading file...") (set_selected p st)))
    as [[content|e] st2].
Qed.

(** A content request goes to [contentUrl] and leaves the instance as it
    is. *)
Lemma fetchFileContent_state net p st :
  sent (snd (fetchFileContent net p st)) =
  sent st ++ [{| endpoint_of := FileContents; url := contentUrl (this st) p |}]
  /\ this (snd (fetchFileContent net p st)) = this st.
Proof.
  unfold fetchFileContent.
  destruct (contents net (length (sent st)) (contentUrl (this st) p))
    as [|[] statusText [[encoding content]|]]; try (split; reflexivity).
  destruct (String.eqb encoding "base64"); [|split; reflexivity].
  destruct (Base64.atob content); split; reflexivity.
Qed.

Lemma selectFile_state net p sz st :
  let st' := snd (selectFile net p sz st) in
  branch (this st') = branch (this st) /\
  owner (this st') = owner (this st) /\
  repo (this st') = repo (this st) /\
  (sent st' = sent st \/
   sent st' =
   sent st ++ [{| endpoint_of := FileContents; url := contentUrl (this st) p |}]).
Proof.
  cbv zeta. rewrite selectFile_eq. cbv zeta.
  destruct (sz >? maxFileSize (this st))%Z; simpl.
  - repeat split. now left.
  - pose proof (fetchFileContent_state net p
                  (set_viewer (Notice "Loading file...") (set_selected p st)))
      as [Hs Ht].
    destruct (fetchFileContent net p
                (set_viewer (Notice "Loading file...") (set_selected p st)))
      as [[content|e] st2]; simpl in *; rewrite Ht, Hs; simpl;
      repeat split; now right.
Qed.

Lemma select_all_state net clicks : forall st,
  let final := select_all net clicks st in
  branch (this final) = branch (this st) /\
  owner (this final) = owner (this st) /\
  repo (this final) = repo (this st) /\
  exists new,
    sent final = sent st ++ new /\
    Forall (content_request_on (owner (this st)) (repo (this st))
              (branch (this st))) new.
Proof.
  induction clicks as [|[p sz] clicks IH]; intros st; cbv zeta.
  - simpl. repeat split. exists []. split; [now rewrite app_nil_r | constructor].
  - simpl. destruct (selectFile_state net p sz st) as [Hb [Ho [Hr Hs]]].
    destruct (IH (snd (selectFile net p sz st))) as [Hb' [Ho' [Hr' [new [Hn Hf]]]]].
    unfold select_all in *. rewrite Hb', Ho', Hr', Hn.
    rewrite Hb, Ho, Hr in Hf. repeat split; try assumption.
    destruct Hs as [-> | ->].
    + now exists new.
    + eexists. rewrite <- app_assoc. split; [reflexivity|].
      simpl. constructor; [|exact Hf].
      split; [reflexivity|]. now exists p.
Qed.

Lemma nth_error_after {A : Type} (l : list A) x rest :
  nth_error (l ++ x :: rest) (length l) = Some x.
Proof. induction l; simpl; auto. Qed.

(** When an attempt that does not fall back returns, its branch request was
    answered with a tree. *)
Lemma fetchRepositoryTree_once_ok net st files :
  not_ok (branches net (length (sent st)) (branchUrl (this st))) && is_main st
  = false ->
  fst (fetchRepositoryTree net st) = Ok files ->
  exists statusText treeSha,
    branches net (length (sent st)) (branchUrl (this st))
    = Resolved true statusText (Some treeSha).
Proof.
  intros H. rewrite (fetchRepositoryTree_once _ _ H). cbv zeta.
  destruct (branches net (length (sent st)) (branchUrl (this st)))
    as [|[] statusText [treeSha|]]; try discriminate.
  intros _. now exists statusText, treeSha.
Qed.

Lemma resolved_lookup net st files :
  not_ok (branches net (length (sent st)) (branchUrl (this st))) && is_main st
  = false ->
  fst (fetchRepositoryTree net st) = Ok files ->
  let st' := snd (fetchRepositoryTree net st) in
  this st' = this st /\
  exists statusText treeSha,
    nth_error (sent st') (length (sent st)) =
    Some {| endpoint_of := BranchLookup; url := branchUrl (this st) |} /\
    branches net (length (sent st)) (branchUrl (this st))
    = Resolved true statusText (Some treeSha).
Proof.
  intros H Hok. cbv zeta.
  destruct (fetchRepositoryTree_once_sent net st H) as [rest [Hs [_ Ht]]].
  destruct (fetchRepositoryTree_once_ok net st files H Hok) as [s [sha Ha]].
  split; [exact Ht|]. exists s, sha. split; [|exact Ha].
  rewrite Hs. apply nth_error_after.
Qed.

(** ** The filter, the constructor and the sample collation *)

Lemma is_excluded_path excludedPaths f g :
  path f = path g ->
  is_excluded excludedPaths f = is_excluded excludedPaths g.
Proof. unfold is_excluded. now intros ->. Qed.

Lemma is_excluded_spec excludedPaths f :
  is_excluded excludedPaths f = true <->
  exists pattern,
    In pattern excludedPaths /\
    exists pre post, path f = (pre ++ pattern ++ post)%string.
Proof.
  unfold is_excluded. rewrite existsb_exists.
  split; intros [pattern [Hin H]]; exists pattern; split; try assumption;
    now apply StrFacts.includes_spec.
Qed.

(** The records that are skipped leave no trace: the tree is the one built
    from the records kept. *)
Lemma buildFileTree_retained excludedPaths files :
  buildFileTree excludedPaths files =
  buildFileTree [] (retained excludedPaths files).
Proof.
  induction files as [|f files IH] using rev_ind; [reflexivity|].
  rewrite retained_snoc, buildFileTree_snoc, IH.
  destruct (is_excluded excludedPaths f) eqn:Hex.
  - rewrite app_nil_r. unfold add_file. rewrite Hex.
    now destruct (buildFileTree [] (retained excludedPaths files)).
  - rewrite buildFileTree_snoc. unfold add_file. rewrite Hex. reflexivity.
Qed.

Lemma retained_permutation excludedPaths files files' :
  Permutation files files' ->
  Permutation (retained excludedPaths files) (retained excludedPaths files').
Proof.
  unfold retained. induction 1 as [|f l l' HP IH|f g l|l l' l'' H1 IH1 H2 IH2];
    simpl.
  - constructor.
  - destruct (negb (is_excluded excludedPaths f)); [now constructor | exact IH].
  - destruct (negb (is_excluded excludedPaths f)),
      (negb (is_excluded excludedPaths g)); try reflexivity. apply perm_swap.
  - now transitivity (filter (fun f => negb (is_excluded excludedPaths f)) l').
Qed.

Lemma excluded_absent excludedPaths files tree f ks s z :
  buildFileTree excludedPaths files = Ok tree ->
  is_excluded excludedPaths f = true ->
  node_at tree ks <> Some (file (path f) s z).
Proof.
  intros Hb Hex Hn.
  destruct (buildFileTree_files_from _ _ _ Hb _ _ _ _ Hn)
    as [_ [_ [g [Hlat _]]]].
  destruct (latest_retained _ _ _ _ Hlat) as [_ [Hgex Hgp]].
  rewrite (is_excluded_path _ _ _ Hgp) in Hgex. congruence.
Qed.

Lemma constructor_excludedPaths container repoUrl opts b :
  constructor container repoUrl opts = Ok (Some b) ->
  excludedPaths b = match opt_excludedPaths opts with
                    | Some l => l
                    | None => default_excludedPaths
                    end.
Proof.
  unfold constructor. destruct (negb container); [discriminate|].
  destruct repoUrl as [u|]; [|discriminate].
  destruct (match_repo u) as [[g1 g2]|]; [|discriminate].
  now intros [= <-].
Qed.

(** Without the attribute the handler passes the empty array, and the
    constructor keeps it. *)
Lemma auto_initialize_excludedPaths container e b :
  getAttribute (attributes e) "data-excluded-paths" = None ->
  auto_initialize container e = Ok (Some b) ->
  excludedPaths b = [].
Proof.
  unfold auto_initialize. intros -> H.
  now apply constructor_excludedPaths in H.
Qed.

Lemma code_unit_order_total a b :
  (0 < code_unit_order a b -> code_unit_order b a <= 0)%Z.
Proof.
  unfold code_unit_order. rewrite (String.compare_antisym b a).
  destruct (String.compare a b); simpl; lia.
Qed.

Lemma code_unit_order_trans a b c :
  (code_unit_order a b <= 0 -> code_unit_order b c <= 0 ->
   code_unit_order a c <= 0)%Z.
Proof.
  unfold code_unit_order.
  destruct (String.compare a b) eqn:Hab; try lia;
    destruct (String.compare b c) eqn:Hbc; try lia; intros _ _.
  - apply String_as_OT.cmp_eq in Hab, Hbc. subst.
    pose proof (proj2 (String_as_OT.cmp_eq c c) eq_refl) as Hcc.
    unfold String_as_OT.cmp in Hcc. now rewrite Hcc.
  - apply String_as_OT.cmp_eq in Hab. subst. now rewrite Hbc.
  - apply String_as_OT.cmp_eq in Hbc. subst. now rewrite Hab.
  - apply String_as_OT.cmp_lt in Hab, Hbc.
    pose proof (String_as_OT.lt_trans _ _ _ Hab Hbc) as Hac.
    apply String_as_OT.cmp_lt in Hac. unfold String_as_OT.cmp in Hac.
    now rewrite Hac.
Qed.

Example sample_tree_rendered :
  panel (this (snd (loadRepository sample_net code_unit_order sample_state)))
  = TreeView
      [ tree_folder "src"
          [ tree_folder "lib" [tree_file "util.js" "src/lib/util.js" 200000];
            tree_file "app.js" "src/app.js" 1200 ];
        tree_file "README.md" "README.md" 300 ].
Proof. reflexivity. Qed.

(** ** Examples *)

Example split_examples :
  Str.split slash "src/lib/util.js" = ["src"; "lib"; "util.js"] /\
  Str.split slash "/a/" = [""; "a"; ""] /\
  Str.split slash "" = [""].
Proof. repeat split. Qed.

(** Array indices come first, in ascending order. *)
Example Object_keys_order :
  Object_keys
    (object None
       [("b", file "b" "" 0); ("10", file "10" "" 0); ("2", file "2" "" 0);
        ("01", file "01" "" 0)])
  = ["2"; "10"; "b"; "01"].
Proof. reflexivity. Qed.

Example match_repo_examples :
  match_repo "https://github.com/octocat/Hello-World.git/tree/main"
  = Some ("octocat", "Hello-World.git") /\
  strip_dot_git "Hello-World.git" = "Hello-World" /\
  match_repo "https://github.com/octocat" = None.
Proof. repeat split. Qed.

Example parseInt_examples :
  parseInt (Some " 50000px") = Some 50000%Z /\
  parseInt (Some "0x10") = Some 16%Z /\
  parseInt (Some "-7") = Some (-7)%Z /\
  parseInt (Some "large") = None /\
  parseInt None = None.
Proof. repeat split. Qed.

Example formatFileSize_examples :
  formatFileSize 512 = "512 B" /\
  formatFileSize 1280 = "1.3 KB" /\
  formatFileSize 200000 = "195.3 KB" /\
  formatFileSize 5242880 = "5.0 MB".
Proof. repeat split. Qed.

(** A file written where a folder was takes the place of the folder. *)
Example folder_overwritten :
  buildFileTree [] [blob "a/b" "s1" 1; blob "a" "s2" 2]
  = Ok (object None [("a", file "a" "s2" 2)]).
Proof. reflexivity. Qed.

(** A file called [__proto__] becomes the prototype of its folder, whose
    reads of [type], [path], [sha] and [size] then find its fields. *)
Example prototype_replaced :
  buildFileTree [] [blob "__proto__" "s1" 1]
  = Ok (object (Some ("__proto__", "s1", 1%Z)) []) /\
  buildFileTree [] [blob "__proto__" "s1" 1; blob "size/y" "s2" 2]
  = Throw TypeErr.
Proof. split; reflexivity. Qed.

Example both_branches_missing :
  let st := snd (loadRepository missing_net code_unit_order sample_state) in
  panel (this st) = ErrorView load_failure /\
  branch (this st) = "master" /\
  map url (sent st)
  = ["https://api.github.com/repos/octocat/Hello-World/branches/main";
     "https://api.github.com/repos/octocat/Hello-World/branches/master"].
Proof. repeat split. Qed.

Example inherited_name_fails_to_load :
  let st := snd (loadRepository inherited_net code_unit_order sample_state) in
  panel (this st) = ErrorView load_failure /\ fileTree (this st) = None.
Proof. split; reflexivity. Qed.

(** * The claims *)

(** C1. For a listing whose kept records have distinct paths, every file
    node of the tree that [buildFileTree] returns sits at the place its
    path names: joining the names on the way to it with [/] gives the
    [path] stored in the node, and that is the path of exactly one record
    kept, whose [sha] and [size] the node carries.  On an orderly listing
    a tree is returned, and every record kept is such a file node. *)
Theorem leaf_path_roundtrip excludedPaths files :
  NoDup (map path (retained excludedPaths files)) ->
  (forall tree ks p s z,
      buildFileTree excludedPaths files = Ok tree ->
      node_at tree ks = Some (file p s z) ->
      Str.join slash ks = p /\
      exists f,
        In f files /\ is_excluded excludedPaths f = false /\
        path f = Str.join slash ks /\ sha f = s /\ size f = z /\
        forall g, In g files -> is_excluded excludedPaths g = false ->
                  path g = Str.join slash ks -> g = f) /\
  (orderly excludedPaths files = true ->
   exists tree,
     buildFileTree excludedPaths files = Ok tree /\
     forall f, In f files -> is_excluded excludedPaths f = false ->
               node_at tree (parts_of f) = Some (file_of f) /\
               Str.join slash (parts_of f) = path f).
Proof.
  intros Hnd.
  assert (Hinj : forall f g,
             In f files -> is_excluded excludedPaths f = false ->
             In g files -> is_excluded excludedPaths g = false ->
             path g = path f -> g = f).
  { intros f g Hf Hfex Hg Hgex Hp.
    apply (map_injective_on path (retained excludedPaths files));
      try assumption; apply filter_In; split; try assumption.
    - now rewrite Hgex.
    - now rewrite Hfex. }
  split.
  - intros tree ks p s z Hb Hn.
    destruct (buildFileTree_files_from _ _ _ Hb _ _ _ _ Hn)
      as [-> [_ [f [Hlat Hf]]]].
    rewrite StrFacts.join_split. split; [reflexivity|].
    destruct (latest_retained _ _ _ _ Hlat) as [Hin [Hex Hp]].
    injection Hf as _ Hs Hz.
    exists f. repeat split; try assumption.
    intros g Hg Hgex Hgp. apply Hinj; try assumption. congruence.
  - intros Hord. destruct (orderly_build _ _ Hord) as [tree [Hb [_ Hall]]].
    exists tree. split; [exact Hb|]. intros f Hin Hex.
    split; [|apply StrFacts.join_split].
    destruct (Hall f) as [g [Hlat Hn]].
    { apply filter_In. now rewrite Hex. }
    destruct (latest_retained _ _ _ _ Hlat) as [Hgin [Hgex Hgp]].
    now rewrite (Hinj f g Hin Hex Hgin Hgex Hgp) in Hn.
Qed.

Lemma leaf_path_roundtrip_witness :
  (Str.join slash ["src"; "lib"; "util.js"] = "src/lib/util.js" /\
   exists f,
     In f sample_files /\ is_excluded default_excludedPaths f = false /\
     path f = Str.join slash ["src"; "lib"; "util.js"] /\
     sha f = "d4" /\ size f = 200000%Z /\
     forall g, In g sample_files ->
               is_excluded default_excludedPaths g = false ->
               path g = Str.join slash ["src"; "lib"; "util.js"] -> g = f) /\
  exists tree,
    buildFileTree default_excludedPaths sample_files = Ok tree /\
    forall f, In f sample_files ->
              is_excluded default_excludedPaths f = false ->
              node_at tree (parts_of f) = Some (file_of f) /\
              Str.join slash (parts_of f) = path f.
Proof.
  assert (Hnd : NoDup (map path (retained default_excludedPaths sample_files)))
    by (vm_compute; repeat constructor; simpl; intuition discriminate).
  destruct (leaf_path_roundtrip default_excludedPaths sample_files Hnd)
    as [Hleaves Hbuilt].
  split; [|exact (Hbuilt eq_refl)].
  exact (Hleaves sample_tree ["src"; "lib"; "util.js"] "src/lib/util.js" "d4"
           200000%Z eq_refl eq_refl).
Defined.

(** C2. [loadRepository] asks for the configured branch first.  It asks a
    second time exactly when that answer is not ok and the branch is
    ['main'], and then for ['master']; there is never a third branch
    request.  Whatever [fetchRepositoryTree] throws ends in the error panel
    with the message for the user: a first answer that is not ok for
    another branch, a rejected request, and, after the fallback, an answer
    for ['master'] that is not ok or a rejected request, after which
    nothing more is sent. *)
Theorem branch_resolution net localeCompare st :
  let first := branches net (length (sent st)) (branchUrl (this st)) in
  let st1 :=
    set_branch "master" (sending BranchLookup (branchUrl (this st)) st) in
  let second := branches net (length (sent st1)) (branchUrl (this st1)) in
  let st' := snd (loadRepository net localeCompare st) in
  (exists new,
      sent st' = sent st ++ new /\
      branch_lookups new =
      if not_ok first && is_main st
      then [branchUrl (this st); branchUrl (this st1)]
      else [branchUrl (this st)]) /\
  branchUrl (this st1)
  = (api ++ owner (this st) ++ "/" ++ repo (this st)
         ++ "/branches/master")%string /\
  (forall e, fst (fetchRepositoryTree net st) = Throw e ->
             panel (this st') = ErrorView load_failure) /\
  (is_main st = false -> not_ok first = true \/ first = Rejected ->
   panel (this st') = ErrorView load_failure) /\
  (first = Rejected -> panel (this st') = ErrorView load_failure) /\
  (is_main st = true -> not_ok first = true ->
   not_ok second = true \/ second = Rejected ->
   panel (this st') = ErrorView load_failure /\
   sent st' =
   sent st ++ [{| endpoint_of := BranchLookup; url := branchUrl (this st) |};
               {| endpoint_of := BranchLookup; url := branchUrl (this st1) |}]).
Proof.
  cbv zeta.
  destruct (loadRepository_state net localeCompare st)
    as [Hsent [_ [_ [_ [Hthrow _]]]]].
  rewrite Hsent.
  split; [|split; [reflexivity|split; [exact Hthrow|split; [|split]]]].
  - destruct (not_ok (branches net (length (sent st)) (branchUrl (this st)))
              && is_main st) eqn:Hfb.
    + destruct (fetchRepositoryTree_fallback _ _ Hfb) as [-> Hm].
      destruct (fetchRepositoryTree_once_sent net _
                  (eq_trans (f_equal (andb _) Hm) (andb_false_r _)))
        as [rest [-> [Hrest _]]].
      eexists. simpl. rewrite <- app_assoc. split; [reflexivity|].
      unfold branch_lookups in *. simpl. now rewrite Hrest.
    + destruct (fetchRepositoryTree_once_sent net _ Hfb)
        as [rest [-> [Hrest _]]].
      eexists. split; [reflexivity|].
      unfold branch_lookups in *. simpl. now rewrite Hrest.
  - intros Hm H.
    destruct (fetchRepositoryTree_once_fails net st Hm H) as [e [He _]].
    now apply (Hthrow e).
  - intros H. rewrite fetchRepositoryTree_eq in Hthrow. rewrite H in Hthrow.
    now apply (Hthrow NetworkFailure).
  - intros Hm H1 H2.
    assert (Hfb : not_ok (branches net (length (sent st)) (branchUrl (this st)))
                  && is_main st = true) by now rewrite H1, Hm.
    destruct (fetchRepositoryTree_fallback _ _ Hfb) as [Heq Hm1].
    rewrite Heq in *.
    destruct (fetchRepositoryTree_once_fails net _ Hm1 H2) as [e [He Hs]].
    split; [now apply (Hthrow e)|].
    rewrite Hs. simpl. now rewrite <- app_assoc.
Qed.

Lemma branch_resolution_witness :
  panel (this (snd (loadRepository missing_net code_unit_order sample_state)))
  = ErrorView load_failure /\
  sent (snd (loadRepository missing_net code_unit_order sample_state))
  = [{| endpoint_of := BranchLookup;
        url := "https://api.github.com/repos/octocat/Hello-World/branches/main" |};
     {| endpoint_of := BranchLookup;
        url := "https://api.github.com/repos/octocat/Hello-World/branches/master" |}].
Proof.
  exact (proj2 (proj2 (proj2 (proj2 (proj2
           (branch_resolution missing_net code_unit_order sample_state)))))
           eq_refl eq_refl (or_introl eq_refl)).
Defined.

(** C3. With a collation that is a total preorder, every list of the
    tree that [renderFileTree] shows is ordered: a folder comes before a
    file whatever the names, and two folders, or two files, come in the
    order of [localeCompare] on their names.  The lists show the tree in
    full, the names of a list being the own keys of its object. *)
Theorem siblings_ordered (localeCompare : string -> string -> Z) :
  (forall a b, (0 < localeCompare a b -> localeCompare b a <= 0)%Z) ->
  (forall a b c, (localeCompare a b <= 0 -> localeCompare b c <= 0 ->
                  localeCompare a c <= 0)%Z) ->
  forall tree prefix,
    let ul :=
      createTreeElement localeCompare (S (obj_depth tree)) tree prefix in
    ordered_levels localeCompare ul /\
    renders localeCompare tree ul /\
    Permutation (entries localeCompare tree) (map fst (props_of tree)).
Proof.
  intros Htotal Htrans tree prefix. cbv zeta. split; [|split].
  - now apply createTreeElement_ordered.
  - apply createTreeElement_renders. lia.
  - unfold entries. rewrite <- sort_perm. apply Object_keys_perm.
Qed.

Lemma siblings_ordered_witness :
  ordered_levels code_unit_order
    [ tree_folder "src"
        [ tree_folder "lib" [tree_file "util.js" "src/lib/util.js" 200000];
          tree_file "app.js" "src/app.js" 1200 ];
      tree_file "README.md" "README.md" 300 ] /\
  renders code_unit_order sample_tree
    [ tree_folder "src"
        [ tree_folder "lib" [tree_file "util.js" "src/lib/util.js" 200000];
          tree_file "app.js" "src/app.js" 1200 ];
      tree_file "README.md" "README.md" 300 ] /\
  Permutation (entries code_unit_order sample_tree)
    (map fst (props_of sample_tree)).
Proof.
  exact (siblings_ordered code_unit_order code_unit_order_total
           code_unit_order_trans sample_tree "").
Defined.

(** C4. A record is skipped exactly when its path contains one of the
    patterns of [excludedPaths]; the test looks at that record alone, so the
    records kept do not depend on the order; a skipped record leaves no
    trace, the tree being the one built from the records kept, and no file
    of the tree has its path; on an orderly listing every record kept is in
    the tree.  With the pattern [node_modules], the listing of [src/a.js]
    and [node_modules/x.js] gives the tree with [src/a.js] alone. *)
Theorem exclusion_filter excludedPaths files :
  (forall f,
      is_excluded excludedPaths f = true <->
      exists pattern,
        In pattern excludedPaths /\
        exists pre post, path f = (pre ++ pattern ++ post)%string) /\
  (forall files',
      Permutation files files' ->
      Permutation (retained excludedPaths files)
        (retained excludedPaths files')) /\
  buildFileTree excludedPaths files
  = buildFileTree [] (retained excludedPaths files) /\
  (forall tree f ks s z,
      buildFileTree excludedPaths files = Ok tree ->
      is_excluded excludedPaths f = true ->
      node_at tree ks <> Some (file (path f) s z)) /\
  (orderly excludedPaths files = true ->
   exists tree,
     buildFileTree excludedPaths files = Ok tree /\
     forall f, In f files -> is_excluded excludedPaths f = false ->
               exists g, latest excludedPaths files (path f) = Some g /\
                         node_at tree (parts_of f) = Some (file_of g)) /\
  (forall s1 z1 s2 z2,
      buildFileTree ["node_modules"]
        [blob "src/a.js" s1 z1; blob "node_modules/x.js" s2 z2]
      = Ok (object None
              [("src", folder (object None [("a.js", file "src/a.js" s1 z1)]))])).
Proof.
  split; [|split; [|split; [|split; [|split]]]].
  - intros f. apply is_excluded_spec.
  - intros files'. apply retained_permutation.
  - apply buildFileTree_retained.
  - intros tree f ks s z. apply excluded_absent.
  - intros Hord. destruct (orderly_build _ _ Hord) as [tree [Hb [_ Hall]]].
    exists tree. split; [exact Hb|]. intros f Hin Hex. apply Hall.
    apply filter_In. now rewrite Hex.
  - reflexivity.
Qed.

Lemma exclusion_filter_witness :
  exists tree,
    buildFileTree default_excludedPaths sample_files = Ok tree /\
    forall f, In f sample_files ->
              is_excluded default_excludedPaths f = false ->
              exists g,
                latest default_excludedPaths sample_files (path f) = Some g /\
                node_at tree (parts_of f) = Some (file_of g).
Proof.
  exact (proj1 (proj2 (proj2 (proj2 (proj2
           (exclusion_filter default_excludedPaths sample_files)))))
           eq_refl).
Defined.

(** C5. Selecting a file whose size is above [maxFileSize] shows the
    too-large notice and sends no request. *)
Theorem too_large_short_circuit net p sz st :
  (sz > maxFileSize (this st))%Z ->
  let st' := snd (selectFile net p sz st) in
  viewer (this st') = Notice (too_large sz) /\
  sent st' = sent st.
Proof.
  intros H. cbv zeta. rewrite selectFile_eq. cbv zeta.
  apply Z.gt_lt, Z.gtb_lt in H. rewrite H. split; reflexivity.
Qed.

Lemma too_large_short_circuit_witness :
  viewer (this (snd (selectFile sample_net "src/lib/util.js" 200000
                       sample_state)))
  = Notice "File too large to display (195.3 KB). Please view on GitHub." /\
  sent (snd (selectFile sample_net "src/lib/util.js" 200000 sample_state))
  = [].
Proof.
  refine (too_large_short_circuit sample_net "src/lib/util.js" 200000
            sample_state _).
  simpl. lia.
Defined.

(** C6. [buildFileTree] does raise an error on some listings: a folder
    whose name [{}] inherits from [Object.prototype] is taken for an
    existing entry, and so is a file where a folder is needed; the next
    step then reads a property of [undefined].  Empty segments do give
    nodes with the empty name. *)
Theorem buildFileTree_raises :
  (forall s z,
      buildFileTree default_excludedPaths [blob "constructor/index.js" s z]
      = Throw TypeErr) /\
  (forall s1 z1 s2 z2,
      buildFileTree [] [blob "a" s1 z1; blob "a/b" s2 z2] = Throw TypeErr) /\
  (forall s z,
      buildFileTree [] [blob "/a/" s z]
      = Ok (object None
              [("", folder (object None
                      [("a", folder (object None [("", file "/a/" s z)]))]))])).
Proof. repeat split. Qed.

(** C7. The constructor falls back on the default list when [options] has
    no [excludedPaths]; the [DOMContentLoaded] handler, for an element
    without [data-excluded-paths], passes the empty array, which is truthy,
    so the instance excludes nothing. *)
Theorem auto_initialize_excludes_nothing :
  getAttribute (attributes sample_element) "data-excluded-paths" = None /\
  (exists b,
      auto_initialize true sample_element = Ok (Some b) /\
      excludedPaths b = [] /\
      is_excluded (excludedPaths b) (blob "node_modules/x.js" "c3" 90) = false) /\
  (exists b,
      constructor true (Some "https://github.com/octocat/Hello-World")
        no_options = Ok (Some b) /\
      excludedPaths b = default_excludedPaths /\
      is_excluded (excludedPaths b) (blob "node_modules/x.js" "c3" 90) = true).
Proof.
  split; [reflexivity|]. split; eexists; repeat split.
Qed.

(** C8. When the size allows the request: an ok answer with encoding
    [base64] shows the content decoded by [atob], an ok answer with another
    encoding shows the content as it is, and a rejection, an answer that is
    not ok, a body that cannot be read or a content that is not base64
    show the failure notice.  [atob] of [aGVsbG8=] is [hello]. *)
Theorem file_content_decoding net p sz st :
  (sz <= maxFileSize (this st))%Z ->
  let answer := contents net (length (sent st)) (contentUrl (this st) p) in
  let shown := viewer (this (snd (selectFile net p sz st))) in
  match answer with
  | Resolved true _ (Some (encoding, content)) =>
      if String.eqb encoding "base64" then
        match Base64.atob content with
        | Some decoded =>
            fst (fetchFileContent net p st) = Ok decoded /\
            shown = FileView p decoded
        | None =>
            fst (fetchFileContent net p st) = Throw InvalidCharacterError /\
            shown = Notice file_failure
        end
      else
        fst (fetchFileContent net p st) = Ok content /\
        shown = FileView p content
  | _ =>
      (exists e, fst (fetchFileContent net p st) = Throw e) /\
      shown = Notice file_failure
  end /\
  Base64.atob "aGVsbG8=" = Some "hello".
Proof.
  intros H. cbv zeta. split; [|reflexivity].
  rewrite selectFile_eq. cbv zeta.
  assert (Hb : (sz >? maxFileSize (this st))%Z = false)
    by (rewrite Z.gtb_ltb; apply Z.ltb_ge; lia).
  rewrite Hb.
  unfold fetchFileContent.
  change (contentUrl
            (this (set_viewer (Notice "Loading file...") (set_selected p st))) p)
    with (contentUrl (this st) p).
  change (sent (set_viewer (Notice "Loading file...") (set_selected p st)))
    with (sent st).
  destruct (contents net (length (sent st)) (contentUrl (this st) p))
    as [|[] statusText [[encoding content]|]]; simpl;
    try (split; [eexists; reflexivity | reflexivity]).
  destruct (String.eqb encoding "base64"); [|split; reflexivity].
  destruct (Base64.atob content); split; reflexivity.
Qed.

Lemma file_content_decoding_witness :
  (fst (fetchFileContent sample_net "src/app.js" sample_state) = Ok "hello" /\
   viewer (this (snd (selectFile sample_net "src/app.js" 1200 sample_state)))
   = FileView "src/app.js" "hello") /\
  Base64.atob "aGVsbG8=" = Some "hello".
Proof.
  refine (file_content_decoding sample_net "src/app.js" 1200 sample_state _).
  simpl. lia.
Defined.

(** C9. In the tree returned, a file node carries the [sha] and the [size]
    of the last record kept with its path; and a record whose place already
    holds a file is written there without an error. *)
Theorem later_record_overwrites excludedPaths files tree :
  buildFileTree excludedPaths files = Ok tree ->
  (forall ks p s z,
      node_at tree ks = Some (file p s z) ->
      exists f, latest excludedPaths files p = Some f /\
                path f = p /\ sha f = s /\ size f = z) /\
  (forall f p s z,
      is_excluded excludedPaths f = false ->
      node_at tree (parts_of f) = Some (file p s z) ->
      p = path f /\
      exists tree',
        buildFileTree excludedPaths (files ++ [f]) = Ok tree' /\
        node_at tree' (parts_of f) = Some (file_of f)).
Proof.
  intros Hb. pose proof (buildFileTree_files_from _ _ _ Hb) as Inv. split.
  - intros ks p s z Hn.
    destruct (Inv _ _ _ _ Hn) as [_ [_ [f [Hlat Hf]]]].
    exists f. injection Hf as Hp Hs Hz. now repeat split.
  - intros f p s z Hex Hn.
    destruct (Inv _ _ _ _ Hn) as [Hparts [Hlast _]].
    split; [now apply (StrFacts.split_injective slash)|].
    destruct (walk_to_node f _ _ _ Hn) as [tree' Hw].
    exists tree'. rewrite buildFileTree_snoc, Hb. unfold add_file.
    rewrite Hex. split; [exact Hw|].
    apply walk_writes with (t := tree);
      [apply StrFacts.split_not_nil | exact Hlast | exact Hw].
Qed.

Lemma later_record_overwrites_witness :
  (forall ks p s z,
      node_at (object None [("src", folder (object None
                              [("a.js", file "src/a.js" "new" 2)]))]) ks
      = Some (file p s z) ->
      exists f,
        latest [] [blob "src/a.js" "old" 1; blob "src/a.js" "new" 2] p = Some f /\
        path f = p /\ sha f = s /\ size f = z) /\
  (forall f p s z,
      is_excluded [] f = false ->
      node_at (object None [("src", folder (object None
                              [("a.js", file "src/a.js" "new" 2)]))])
        (parts_of f) = Some (file p s z) ->
      p = path f /\
      exists tree',
        buildFileTree []
          ([blob "src/a.js" "old" 1; blob "src/a.js" "new" 2] ++ [f]) = Ok tree' /\
        node_at tree' (parts_of f) = Some (file_of f)).
Proof.
  exact (later_record_overwrites []
           [blob "src/a.js" "old" 1; blob "src/a.js" "new" 2]
           (object None [("src", folder (object None
                           [("a.js", file "src/a.js" "new" 2)]))])
           eq_refl).
Defined.

(** C10. When [fetchRepositoryTree] returns, the [branch] field names the
    branch whose request was answered with a tree; after a first answer
    that is not ok for ['main'] it is ['master'].  Selecting files never
    changes the field, and every request they send is a content request
    whose URL ends in [?ref=] and that branch. *)
Theorem content_requests_follow_branch net localeCompare st clicks :
  let first := branches net (length (sent st)) (branchUrl (this st)) in
  let loaded := snd (loadRepository net localeCompare st) in
  let final := select_all net clicks loaded in
  (forall files,
      fst (fetchRepositoryTree net st) = Ok files ->
      exists n statusText treeSha,
        nth_error (sent loaded) n =
        Some {| endpoint_of := BranchLookup; url := branchUrl (this loaded) |} /\
        branches net n (branchUrl (this loaded))
        = Resolved true statusText (Some treeSha)) /\
  (is_main st = true -> not_ok first = true ->
   branch (this loaded) = "master") /\
  branch (this final) = branch (this loaded) /\
  exists new,
    sent final = sent loaded ++ new /\
    Forall (content_request_on (owner (this loaded)) (repo (this loaded))
              (branch (this loaded))) new.
Proof.
  cbv zeta.
  destruct (loadRepository_state net localeCompare st)
    as [Hsent [Hb [Ho [Hr _]]]].
  destruct (select_all_state net clicks (snd (loadRepository net localeCompare st)))
    as [Hfb [_ [_ Hnew]]].
  split; [|split; [|split; [exact Hfb | exact Hnew]]].
  - intros files Hok.
    assert (Hurl : branchUrl (this (snd (loadRepository net localeCompare st)))
                   = branchUrl (this (snd (fetchRepositoryTree net st))))
      by (unfold branchUrl; now rewrite Hb, Ho, Hr).
    rewrite Hurl, Hsent. clear Hurl Hsent Hb Ho Hr Hfb Hnew.
    destruct (not_ok (branches net (length (sent st)) (branchUrl (this st)))
              && is_main st) eqn:Hfall.
    + destruct (fetchRepositoryTree_fallback _ _ Hfall) as [Heq Hm].
      rewrite Heq in *.
      assert (H1 : not_ok
                     (branches net
                        (length (sent (set_branch "master"
                           (sending BranchLookup (branchUrl (this st)) st))))
                        (branchUrl (this (set_branch "master"
                           (sending BranchLookup (branchUrl (this st)) st)))))
                   && is_main (set_branch "master"
                           (sending BranchLookup (branchUrl (this st)) st))
                   = false) by (rewrite Hm; apply andb_false_r).
      destruct (resolved_lookup net _ files H1 Hok) as [Ht [s [sha [Hn Ha]]]].
      rewrite Ht. eexists. exists s, sha. split; [exact Hn | exact Ha].
    + destruct (resolved_lookup net _ files Hfall Hok) as [Ht [s [sha [Hn Ha]]]].
      rewrite Ht. eexists. exists s, sha. split; [exact Hn | exact Ha].
  - intros Hm Hn. rewrite Hb.
    assert (Hfall : not_ok (branches net (length (sent st)) (branchUrl (this st)))
                    && is_main st = true) by now rewrite Hm, Hn.
    destruct (fetchRepositoryTree_fallback _ _ Hfall) as [Heq Hm1].
    rewrite Heq.
    destruct (fetchRepositoryTree_once_sent net _
                (eq_trans (f_equal (andb _) Hm1) (andb_false_r _)))
      as [rest [_ [_ Ht]]].
    now rewrite Ht.
Qed.

Lemma content_requests_follow_branch_witness :
  branch (this (snd (loadRepository sample_net code_unit_order sample_state)))
  = "master".
Proof.
  exact (proj1 (proj2 (content_requests_follow_branch sample_net
                         code_unit_order sample_state
                         [("src/app.js", 1200%Z)]))
           eq_refl eq_refl).
Defined.

(** * Further properties *)

(** ** [escapeHtml] *)

Lemma escape_char_cases c :
  (c = "&"%char /\ escape_char c = "&amp;") \/
  (c = "<"%char /\ escape_char c = "&lt;") \/
  (c = ">"%char /\ escape_char c = "&gt;") \/
  (c = ascii_of_nat 160 /\ escape_char c = "&nbsp;") \/
  (c <> "&"%char /\ c <> "<"%char /\ c <> ">"%char /\
   escape_char c = String c EmptyString).
Proof.
  unfold escape_char.
  destruct (Ascii.eqb_spec c "&"%char) as [->|H1]; [now left|].
  destruct (Ascii.eqb_spec c "<"%char) as [->|H2]; [now right; left|].
  destruct (Ascii.eqb_spec c ">"%char) as [->|H3]; [now right; right; left|].
  destruct (Nat.eqb_spec (nat_of_ascii c) 160) as [H4|H4].
  - right; right; right; left. split; [|reflexivity].
    rewrite <- H4. symmetry. apply ascii_nat_embedding.
  - now right; right; right; right.
Qed.

Lemma list_ascii_app a b :
  list_ascii_of_string (a ++ b)
  = list_ascii_of_string a ++ list_ascii_of_string b.
Proof. induction a as [|c a IH]; simpl; [reflexivity | now rewrite IH]. Qed.

Lemma escapeHtml_chars text c :
  In c (list_ascii_of_string (escapeHtml text)) ->
  c <> "<"%char /\ c <> ">"%char.
Proof.
  induction text as [|d text IH]; simpl; [contradiction|].
  rewrite list_ascii_app, in_app_iff. intros [H|H]; [|now apply IH].
  destruct (escape_char_cases d)
    as [[_ E]|[[_ E]|[[_ E]|[[_ E]|[_ [H2 [H3 E]]]]]]];
    rewrite E in H; simpl in H;
    repeat (destruct H as [<-|H]; [split; try discriminate; try assumption|]);
    try contradiction.
Qed.

Lemma escapeHtml_plain text :
  (forall c, In c (list_ascii_of_string text) ->
             escape_char c = String c EmptyString) ->
  escapeHtml text = text.
Proof.
  induction text as [|d text IH]; simpl; [reflexivity|]. intros H.
  rewrite (H d (or_introl eq_refl)). simpl. f_equal.
  apply IH. intros c Hc. apply H. now right.
Qed.

Lemma escapeHtml_injective : forall a b,
  escapeHtml a = escapeHtml b -> a = b.
Proof.
  induction a as [|c a IH]; intros [|d b] H; cbn [escapeHtml] in H.
  - reflexivity.
  - exfalso.
    destruct (escape_char_cases d)
      as [[_ E]|[[_ E]|[[_ E]|[[_ E]|[_ [_ [_ E]]]]]]];
      rewrite E in H; discriminate.
  - exfalso.
    destruct (escape_char_cases c)
      as [[_ E]|[[_ E]|[[_ E]|[[_ E]|[_ [_ [_ E]]]]]]];
      rewrite E in H; discriminate.
  - destruct (escape_char_cases c)
      as [[-> E]|[[-> E]|[[-> E]|[[-> E]|[C1 [C2 [C3 E]]]]]]];
      destruct (escape_char_cases d)
        as [[-> E']|[[-> E']|[[-> E']|[[-> E']|[D1 [D2 [D3 E']]]]]]];
      try rewrite E in H; try rewrite E' in H; simpl in H;
      try discriminate;
      try (injection H as H; f_equal; now apply IH);
      try (injection H as Hc H; congruence).
    injection H as Hc H. subst. f_equal. now apply IH.
Qed.

(** ** More on [split] *)

Module SplitFacts.
Import Str.

Lemma startsWith_nil s : startsWith s "" = true.
Proof. now destruct s. Qed.

(** A string without the separator is one segment. *)
Lemma includes_cons c s sep :
  includes (String c s) (String sep "") = false ->
  c <> sep /\ includes s (String sep "") = false.
Proof.
  cbn [includes startsWith]. rewrite startsWith_nil, andb_true_r.
  intros H. apply orb_false_iff in H. destruct H as [H1 H2].
  split; [|exact H2]. intros ->. now rewrite Ascii.eqb_refl in H1.
Qed.

Lemma split_free sep s :
  includes s (String sep "") = false -> split sep s = [s].
Proof.
  induction s as [|c s IH]; intros H; [reflexivity|].
  apply includes_cons in H. destruct H as [Hc H]. simpl.
  apply Ascii.eqb_neq in Hc. rewrite Hc, (IH H). reflexivity.
Qed.

(** Text after a separator: the segments are at least two, and the last one
    is the last one of that text. *)
Lemma split_after sep a b :
  exists h t,
    split sep (a ++ String sep b) = h :: t /\ t <> [] /\
    last t "" = last (split sep b) "".
Proof.
  induction a as [|c a IH]; simpl.
  - rewrite Ascii.eqb_refl. exists "", (split sep b).
    split; [reflexivity|]. split; [apply StrFacts.split_not_nil | reflexivity].
  - destruct IH as [h [t [E [Hne Hl]]]]. rewrite E.
    destruct (Ascii.eqb c sep).
    + exists "", (h :: t). split; [reflexivity|]. split; [discriminate|].
      destruct t; [contradiction | exact Hl].
    + exists (String c h), t. now repeat split.
Qed.

Lemma last_split_after sep a b :
  last (split sep (a ++ String sep b)) "" = last (split sep b) "".
Proof.
  destruct (split_after sep a b) as [h [t [-> [Hne Hl]]]].
  destruct t; [contradiction | exact Hl].
Qed.

(** Text without the separator, appended: it goes on the last segment. *)
Lemma split_app_free sep x y :
  includes y (String sep "") = false ->
  exists front l,
    split sep x = front ++ [l] /\
    split sep (x ++ y) = front ++ [(l ++ y)%string].
Proof.
  intros Hy. induction x as [|c x IH]; simpl.
  - exists [], "". split; [reflexivity|]. simpl. now apply split_free.
  - destruct IH as [front [l [E1 E2]]]. rewrite E1, E2.
    destruct (Ascii.eqb c sep).
    + exists ("" :: front), l. split; reflexivity.
    + destruct front as [|f fs]; simpl.
      * exists [], (String c l). split; reflexivity.
      * exists (String c f :: fs), l. split; reflexivity.
Qed.

Lemma last_split_free sep x y :
  includes y (String sep "") = false ->
  last (split sep (x ++ y)) "" = (last (split sep x) "" ++ y)%string.
Proof.
  intros Hy. destruct (split_app_free sep x y Hy) as [front [l [-> ->]]].
  now rewrite !last_last.
Qed.

End SplitFacts.

(** ** [detectLanguage] *)

Lemma lower_char_idempotent c : lower_char (lower_char c) = lower_char c.
Proof.
  destruct c as [[] [] [] [] [] [] [] []]; reflexivity.
Qed.

Lemma toLowerCase_idempotent s : toLowerCase (toLowerCase s) = toLowerCase s.
Proof.
  induction s as [|c s IH]; simpl; [reflexivity|].
  now rewrite lower_char_idempotent, IH.
Qed.

Lemma extension_after_dot pre ext :
  Str.includes ext "." = false -> Str.includes ext "/" = false ->
  extension_of (pre ++ "." ++ ext) = ext.
Proof.
  intros Hd Hs. unfold extension_of, fileName_of, pop.
  assert (Hs' : Str.includes ("." ++ ext) "/" = false).
  { cbn [append Str.includes Str.startsWith]. simpl. exact Hs. }
  rewrite (SplitFacts.last_split_free slash pre ("." ++ ext) Hs').
  change (last (Str.split slash pre) "" ++ "." ++ ext)%string
    with (last (Str.split slash pre) "" ++ String dot ext)%string.
  rewrite SplitFacts.last_split_after.
  now rewrite (SplitFacts.split_free dot ext Hd).
Qed.

Lemma extension_without_dot dir name :
  Str.includes name "." = false -> Str.includes name "/" = false ->
  extension_of (dir ++ "/" ++ name) = name.
Proof.
  intros Hd Hs. unfold extension_of, fileName_of, pop.
  change (dir ++ "/" ++ name)%string with (dir ++ String slash name)%string.
  rewrite SplitFacts.last_split_after.
  rewrite (SplitFacts.split_free slash name Hs). simpl.
  now rewrite (SplitFacts.split_free dot name Hd).
Qed.

Lemma fetch_listing_this net sha st :
  this (snd (fetch_listing net sha st)) = this st.
Proof. apply fetch_listing_sent. Qed.

(** The requests of an attempt that does not fall back, in full. *)
Lemma fetchRepositoryTree_once_trace net st :
  not_ok (branches net (length (sent st)) (branchUrl (this st))) && is_main st
  = false ->
  this (snd (fetchRepositoryTree net st)) = this st /\
  sent (snd (fetchRepositoryTree net st)) =
  sent st ++ lookup_request (branchUrl (this st))
          :: match branches net (length (sent st)) (branchUrl (this st)) with
             | Resolved true _ (Some treeSha) =>
                 [{| endpoint_of := TreeListing;
                     url := treeUrl (this st) treeSha |}]
             | _ => []
             end.
Proof.
  intros H. rewrite (fetchRepositoryTree_once _ _ H). cbv zeta.
  destruct (branches net (length (sent st)) (branchUrl (this st)))
    as [|[] statusText [treeSha|]]; try (split; reflexivity).
  destruct (fetch_listing_sent net treeSha
              (sending BranchLookup (branchUrl (this st)) st)) as [Hs Ht].
  rewrite Hs, Ht. simpl. rewrite <- app_assoc. split; reflexivity.
Qed.

(** [fetchRepositoryTree] writes [branch] and nothing else of the
    instance. *)
Lemma fetchRepositoryTree_fields net st :
  let b' := this (snd (fetchRepositoryTree net st)) in
  settings b' = settings (this st) /\
  fileTree b' = fileTree (this st) /\
  panel b' = panel (this st) /\
  viewer b' = viewer (this st) /\
  selected b' = selected (this st).
Proof.
  cbv zeta.
  destruct (not_ok (branches net (length (sent st)) (branchUrl (this st)))
            && is_main st) eqn:Hfb.
  - destruct (fetchRepositoryTree_fallback _ _ Hfb) as [-> Hm].
    destruct (fetchRepositoryTree_once_trace net _
                (eq_trans (f_equal (andb _) Hm) (andb_false_r _)))
      as [-> _].
    repeat split.
  - destruct (fetchRepositoryTree_once_trace net _ Hfb) as [-> _].
    repeat split.
Qed.

(** When [fetchRepositoryTree] returns, what it returns is the blobs of a
    listing that the API gave. *)
Lemma fetchRepositoryTree_ok_listing net st files :
  fst (fetchRepositoryTree net st) = Ok files ->
  exists n u statusText listing,
    trees net n u = Resolved true statusText (Some listing) /\
    files = filter (fun item => String.eqb (type item) "blob") listing.
Proof.
  assert (Honce : forall st0,
             not_ok (branches net (length (sent st0)) (branchUrl (this st0)))
             && is_main st0 = false ->
             fst (fetchRepositoryTree net st0) = Ok files ->
             exists n u statusText listing,
               trees net n u = Resolved true statusText (Some listing) /\
               files = filter (fun item => String.eqb (type item) "blob")
                         listing).
  { intros st0 H. rewrite (fetchRepositoryTree_once _ _ H). cbv zeta.
    destruct (branches net (length (sent st0)) (branchUrl (this st0)))
      as [|[] statusText [treeSha|]]; try discriminate.
    unfold fetch_listing.
    match goal with
    | |- context [trees net ?n ?u] =>
        destruct (trees net n u) as [|[] s [listing|]] eqn:E;
          try discriminate; intros [= <-]; now exists n, u, s, listing
    end. }
  destruct (not_ok (branches net (length (sent st)) (branchUrl (this st)))
            && is_main st) eqn:Hfb.
  - destruct (fetchRepositoryTree_fallback _ _ Hfb) as [-> Hm].
    apply Honce. rewrite Hm. apply andb_false_r.
  - now apply Honce.
Qed.

(** X1. [loadRepository] ends in one of two ways, and never throws: the tree
    built from the blobs of the listing is stored and shown, or the error
    message is shown and the stored tree is left as it was. *)
Theorem loadRepository_outcome net localeCompare st :
  let st' := snd (loadRepository net localeCompare st) in
  fst (loadRepository net localeCompare st) = Ok tt /\
  settings (this st') = settings (this st) /\
  ((exists files tree,
       fst (fetchRepositoryTree net st) = Ok files /\
       buildFileTree (excludedPaths (this st)) files = Ok tree /\
       fileTree (this st') = Some tree /\
       panel (this st') =
       TreeView (createTreeElement localeCompare (S (obj_depth tree)) tree ""))
   \/
   (panel (this st') = ErrorView load_failure /\
    fileTree (this st') = fileTree (this st))).
Proof.
  cbv zeta.
  destruct (fetchRepositoryTree_fields net st) as [Hset [Hft _]].
  unfold loadRepository, try_catch, bind, field, lift, update,
    renderFileTree, showError, throw.
  destruct (fetchRepositoryTree net st) as [[files|e] st1] eqn:Hf;
    simpl in *.
  - assert (Hex : excludedPaths (this st1) = excludedPaths (this st))
      by (unfold settings in Hset; congruence).
    rewrite Hex.
    destruct (buildFileTree (excludedPaths (this st)) files) as [tree|e]
      eqn:Hb; simpl.
    + repeat split; [exact Hset|]. left. exists files, tree. now repeat split.
    + repeat split; [exact Hset|]. right. split; [reflexivity | exact Hft].
  - repeat split; [exact Hset|]. right. split; [reflexivity | exact Hft].
Qed.

(** X2. Every file of the tree that [loadRepository] builds is an entry of type
    [blob] of the listing the API gave: the entries for directories and
    submodules do not become files. *)
Theorem only_blobs_become_files net st files tree :
  fst (fetchRepositoryTree net st) = Ok files ->
  buildFileTree (excludedPaths (this st)) files = Ok tree ->
  exists n u statusText listing,
    trees net n u = Resolved true statusText (Some listing) /\
    forall ks p s z,
      node_at tree ks = Some (file p s z) ->
      exists f, In f listing /\ type f = "blob" /\
                path f = p /\ sha f = s /\ size f = z.
Proof.
  intros Hf Hb.
  destruct (fetchRepositoryTree_ok_listing net st files Hf)
    as [n [u [s0 [listing [Ht ->]]]]].
  exists n, u, s0, listing. split; [exact Ht|].
  intros ks p s z Hn.
  destruct (buildFileTree_files_from _ _ _ Hb _ _ _ _ Hn)
    as [_ [_ [f [Hlat Hfo]]]].
  destruct (latest_retained _ _ _ _ Hlat) as [Hin [_ Hp]].
  apply filter_In in Hin. destruct Hin as [Hin Hty].
  apply String.eqb_eq in Hty. injection Hfo as _ Hs Hz.
  exists f. now repeat split.
Qed.

(** X3. The requests of [loadRepository]: one or two branch requests, then at
    most one tree request, which is the last one and asks for the SHA that
    the API gave for the branch now in the field. *)
Theorem load_requests net localeCompare st :
  let st' := snd (loadRepository net localeCompare st) in
  exists lookups rest,
    sent st' = sent st ++ map lookup_request lookups ++ rest /\
    1 <= length lookups <= 2 /\
    (rest = [] \/
     exists statusText treeSha,
       rest = [{| endpoint_of := TreeListing;
                  url := treeUrl (this st') treeSha |}] /\
       branches net (length (sent st) + length lookups - 1)
         (branchUrl (this st'))
       = Resolved true statusText (Some treeSha)).
Proof.
  cbv zeta.
  destruct (loadRepository_state net localeCompare st)
    as [Hsent [Hb [Ho [Hr _]]]].
  assert (Hurl : forall sha,
             treeUrl (this (snd (loadRepository net localeCompare st))) sha
             = treeUrl (this (snd (fetchRepositoryTree net st))) sha)
    by (intros sha; unfold treeUrl; now rewrite Ho, Hr).
  assert (Hburl : branchUrl (this (snd (loadRepository net localeCompare st)))
                  = branchUrl (this (snd (fetchRepositoryTree net st))))
    by (unfold branchUrl; now rewrite Hb, Ho, Hr).
  rewrite Hsent, Hburl. clear Hsent Hburl Hb Ho Hr.
  assert (Honce : forall st0,
             not_ok (branches net (length (sent st0)) (branchUrl (this st0)))
             && is_main st0 = false ->
             exists rest,
               sent (snd (fetchRepositoryTree net st0)) =
               sent st0 ++ lookup_request (branchUrl (this st0)) :: rest /\
               (rest = [] \/
                exists statusText treeSha,
                  rest = [{| endpoint_of := TreeListing;
                             url := treeUrl
                                      (this (snd (fetchRepositoryTree net st0)))
                                      treeSha |}] /\
                  branches net (length (sent st0))
                    (branchUrl (this (snd (fetchRepositoryTree net st0))))
                  = Resolved true statusText (Some treeSha))).
  { intros st0 H.
    destruct (fetchRepositoryTree_once_trace net st0 H) as [Ht Hs].
    rewrite Hs, Ht.
    destruct (branches net (length (sent st0)) (branchUrl (this st0)))
      as [|[] statusText [treeSha|]] eqn:E;
      eexists; (split; [reflexivity|]); try (now left).
    right. now exists statusText, treeSha. }
  destruct (not_ok (branches net (length (sent st)) (branchUrl (this st)))
            && is_main st) eqn:Hfb.
  - destruct (fetchRepositoryTree_fallback _ _ Hfb) as [Heq Hm].
    destruct (Honce _ (eq_trans (f_equal (andb _) Hm) (andb_false_r _)))
      as [rest [Hs Hrest]].
    rewrite <- Heq in Hs, Hrest.
    exists [branchUrl (this st);
            branchUrl (this (set_branch "master"
                         (sending BranchLookup (branchUrl (this st)) st)))],
      rest.
    split; [|split; [simpl; lia|]].
    + rewrite Hs. simpl. rewrite <- app_assoc. reflexivity.
    + setoid_rewrite Hurl. simpl in Hrest. rewrite length_app in Hrest.
      simpl in *.
      replace (length (sent st) + 2 - 1) with (length (sent st) + 1) by lia.
      exact Hrest.
  - destruct (Honce _ Hfb) as [rest [Hs Hrest]].
    exists [branchUrl (this st)], rest.
    split; [|split; [simpl; lia|]].
    + rewrite Hs. reflexivity.
    + setoid_rewrite Hurl. simpl.
      replace (length (sent st) + 1 - 1) with (length (sent st)) by lia.
      exact Hrest.
Qed.

Lemma selectFile_fields net p sz st :
  let r := selectFile net p sz st in
  fst r = Ok tt /\
  settings (this (snd r)) = settings (this st) /\
  branch (this (snd r)) = branch (this st) /\
  fileTree (this (snd r)) = fileTree (this st) /\
  panel (this (snd r)) = panel (this st) /\
  selected (this (snd r)) = Some p /\
  sent (snd r) =
  sent st ++ (if (sz <=? maxFileSize (this st))%Z
              then [{| endpoint_of := FileContents;
                       url := contentUrl (this st) p |}]
              else []).
Proof.
  cbv zeta. rewrite selectFile_eq. cbv zeta.
  rewrite Z.gtb_ltb, Z.leb_antisym.
  destruct (maxFileSize (this st) <? sz)%Z; simpl.
  - repeat split. now rewrite app_nil_r.
  - pose proof (fetchFileContent_state net p
                  (set_viewer (Notice "Loading file...") (set_selected p st)))
      as [Hs Ht].
    destruct (fetchFileContent net p
                (set_viewer (Notice "Loading file...") (set_selected p st)))
      as [[content|e] st2]; simpl in *; rewrite Hs; unfold settings;
      rewrite Ht; repeat split.
Qed.

Lemma select_all_fields net clicks st :
  let final := select_all net clicks st in
  settings (this final) = settings (this st) /\
  fileTree (this final) = fileTree (this st) /\
  panel (this final) = panel (this st) /\
  selected (this final) =
    match rev clicks with
    | [] => selected (this st)
    | last_click :: _ => Some (fst last_click)
    end.
Proof.
  cbv zeta. split; [|split; [|split]];
    (induction clicks as [|[p sz] clicks IH] using rev_ind;
     [reflexivity|]); unfold select_all in *; rewrite fold_left_app; simpl;
    destruct (selectFile_fields net p sz
                (fold_left
                   (fun st0 click =>
                      snd (selectFile net (fst click) (snd click) st0))
                   clicks st))
      as [_ [Hset [_ [Hft [Hp [Hsel _]]]]]].
  - now rewrite Hset.
  - now rewrite Hft.
  - now rewrite Hp.
  - rewrite rev_app_distr. simpl. exact Hsel.
Qed.

(** X4. Selections, however they end, never throw and leave the tree, its
    panel and the configuration as they are; the element selected is the
    last one clicked. *)
Theorem selections_leave_tree net clicks st :
  let final := select_all net clicks st in
  (forall p sz st0, fst (selectFile net p sz st0) = Ok tt) /\
  settings (this final) = settings (this st) /\
  fileTree (this final) = fileTree (this st) /\
  panel (this final) = panel (this st) /\
  selected (this final) =
    match rev clicks with
    | [] => selected (this st)
    | last_click :: _ => Some (fst last_click)
    end.
Proof.
  cbv zeta. split; [|apply select_all_fields].
  intros p sz st0. apply selectFile_fields.
Qed.

(** X5. Each selection within the size limit sends one request and the
    others send none: the requests of a run of clicks are the content
    requests of the clicks within the limit, in their order, the limit
    included. *)
Theorem selection_requests net clicks st :
  sent (select_all net clicks st) =
  sent st ++
  map (fun click => {| endpoint_of := FileContents;
                       url := contentUrl (this st) (fst click) |})
    (filter (within_limit (maxFileSize (this st))) clicks).
Proof.
  induction clicks as [|[p sz] clicks IH] using rev_ind.
  - simpl. now rewrite app_nil_r.
  - destruct (select_all_state net clicks st) as [Hb [Ho [Hr _]]].
    destruct (select_all_fields net clicks st) as [Hset _].
    unfold select_all in *. rewrite fold_left_app. simpl.
    set (st1 := fold_left
                  (fun st0 click =>
                     snd (selectFile net (fst click) (snd click) st0))
                  clicks st) in *.
    destruct (selectFile_fields net p sz st1)
      as [_ [_ [_ [_ [_ [_ Hs]]]]]].
    assert (Hmax : maxFileSize (this st1) = maxFileSize (this st))
      by (unfold settings in Hset; congruence).
    assert (Hurl : contentUrl (this st1) p = contentUrl (this st) p)
      by (unfold contentUrl; now rewrite Hb, Ho, Hr).
    rewrite Hs, IH, Hmax, Hurl, filter_app, map_app, <- app_assoc.
    f_equal. f_equal. simpl. unfold within_limit. simpl.
    now destruct (sz <=? maxFileSize (this st))%Z.
Qed.

(** ** The repository URL *)

Lemma includes_slash_cons c s :
  Str.includes (String c s) "/" = false <->
  c <> slash /\ Str.includes s "/" = false.
Proof.
  cbn [Str.includes Str.startsWith].
  rewrite SplitFacts.startsWith_nil, andb_true_r, orb_false_iff. split.
  - intros [H1 H2]. split; [|exact H2]. intros ->. discriminate.
  - intros [H1 H2]. split; [|exact H2].
    apply Ascii.eqb_neq. intros E. apply H1. now symmetry.
Qed.

Lemma take_segment_spec s :
  s = (fst (take_segment s) ++ snd (take_segment s))%string /\
  Str.includes (fst (take_segment s)) "/" = false /\
  (snd (take_segment s) = "" \/
   exists r, snd (take_segment s) = String slash r).
Proof.
  induction s as [|c s IH]; simpl.
  - repeat split. now left.
  - destruct (Ascii.eqb_spec c slash) as [->|Hc]; simpl.
    + repeat split. right. now exists s.
    + destruct (take_segment s) as [seg rest]. simpl in *.
      destruct IH as [E [F R]]. split; [now rewrite <- E|].
      split; [|exact R]. now apply includes_slash_cons.
Qed.

Lemma take_segment_head c s :
  c <> slash -> exists seg, fst (take_segment (String c s)) = String c seg.
Proof.
  intros Hc. simpl. apply Ascii.eqb_neq in Hc. rewrite Hc.
  destruct (take_segment s) as [seg rest]. now exists seg.
Qed.

Lemma take_segment_free seg r :
  Str.includes seg "/" = false ->
  take_segment (seg ++ String slash r) = (seg, String slash r).
Proof.
  induction seg as [|c seg IH]; intros H.
  - reflexivity.
  - apply includes_slash_cons in H. destruct H as [Hc H].
    simpl. apply Ascii.eqb_neq in Hc. rewrite Hc. now rewrite (IH H).
Qed.

Lemma match_here_sound s g1 g2 :
  match_here s = Some (g1, g2) ->
  exists post,
    s = ("github.com/" ++ g1 ++ "/" ++ g2 ++ post)%string /\
    g1 <> "" /\ g2 <> "" /\
    Str.includes g1 "/" = false /\ Str.includes g2 "/" = false.
Proof.
  unfold match_here.
  destruct (Str.startsWith s "github.com/") eqn:Hs; [|discriminate].
  apply StrFacts.startsWith_spec in Hs. destruct Hs as [x ->].
  change (drop 11 ("github.com/" ++ x)) with x.
  pose proof (take_segment_spec x) as [E1 [F1 R1]].
  destruct (take_segment x) as [g r1]. simpl in *.
  destruct g as [|c g]; [discriminate|].
  destruct r1 as [|c1 r2]; [discriminate|].
  pose proof (take_segment_spec r2) as [E2 [F2 _]].
  destruct (take_segment r2) as [[|c2 h] post]; [discriminate|].
  simpl in *. intros [= <- <-]. exists post.
  destruct R1 as [R1|[r R1]]; [discriminate|]. injection R1 as -> ->.
  split; [|repeat split; try discriminate; assumption].
  rewrite E1, E2. reflexivity.
Qed.

Lemma match_here_complete g1 c rest :
  g1 <> "" -> Str.includes g1 "/" = false -> c <> slash ->
  match_here ("github.com/" ++ g1 ++ "/" ++ String c rest) <> None.
Proof.
  intros Hne Hf Hc. unfold match_here.
  change (Str.startsWith ("github.com/" ++ g1 ++ "/" ++ String c rest)
            "github.com/")
    with (Str.startsWith (g1 ++ "/" ++ String c rest) "").
  rewrite SplitFacts.startsWith_nil.
  change (drop 11 ("github.com/" ++ g1 ++ "/" ++ String c rest))
    with (g1 ++ String slash (String c rest))%string.
  rewrite (take_segment_free _ _ Hf).
  destruct g1 as [|d g1]; [contradiction|].
  destruct (take_segment_head c rest Hc) as [seg E].
  destruct (take_segment (String c rest)) as [seg' post]. simpl in E.
  subst seg'. discriminate.
Qed.

Lemma match_repo_sound : forall u g1 g2,
  match_repo u = Some (g1, g2) ->
  exists pre post,
    u = (pre ++ "github.com/" ++ g1 ++ "/" ++ g2 ++ post)%string /\
    g1 <> "" /\ g2 <> "" /\
    Str.includes g1 "/" = false /\ Str.includes g2 "/" = false.
Proof.
  induction u as [|c u IH]; intros g1 g2 H.
  - discriminate.
  - cbn [match_repo] in H.
    destruct (match_here (String c u)) as [[h1 h2]|] eqn:E.
    + injection H as <- <-.
      destruct (match_here_sound _ _ _ E) as [post [Es Hs]].
      exists "", post. now split.
    + destruct (IH _ _ H) as [pre [post [-> Hs]]].
      exists (String c pre), post. now split.
Qed.

Lemma match_repo_complete : forall pre g1 c rest,
  g1 <> "" -> Str.includes g1 "/" = false -> c <> slash ->
  match_repo (pre ++ "github.com/" ++ g1 ++ "/" ++ String c rest) <> None.
Proof.
  induction pre as [|d pre IH]; intros g1 c rest Hne Hf Hc.
  - pose proof (match_here_complete g1 c rest Hne Hf Hc) as H.
    cbn [append]. cbn [append] in H.
    cbn [match_repo].
    destruct (match_here _) as [m|]; [discriminate | contradiction].
  - cbn [append match_repo].
    destruct (match_here _) as [m|]; [discriminate|].
    now apply IH.
Qed.

Lemma string_app_assoc (a b c : string) :
  ((a ++ b) ++ c = a ++ (b ++ c))%string.
Proof. induction a as [|x a IH]; simpl; [reflexivity | now rewrite IH]. Qed.

Lemma strip_dot_git_prefix g :
  exists suffix, g = (strip_dot_git g ++ suffix)%string.
Proof.
  induction g as [|c g IH]; [now exists ""|].
  cbn [strip_dot_git].
  destruct (String.eqb (String c g) ".git").
  - now exists (String c g).
  - destruct IH as [suffix E]. exists suffix. simpl. now rewrite <- E.
Qed.

Lemma includes_slash_prefix a b :
  Str.includes (a ++ b) "/" = false -> Str.includes a "/" = false.
Proof.
  induction a as [|c a IH]; [reflexivity|].
  cbn [append]. rewrite !includes_slash_cons. intros [Hc H].
  split; [exact Hc | now apply IH].
Qed.

(** X6. The pattern of the constructor finds [github.com/], a first group and a
    second group in the URL, the groups being without [/] and not empty;
    and it finds a match in every URL that has one. *)
Theorem repo_url_pattern :
  (forall u g1 g2,
      match_repo u = Some (g1, g2) ->
      exists pre post,
        u = (pre ++ "github.com/" ++ g1 ++ "/" ++ g2 ++ post)%string /\
        g1 <> "" /\ g2 <> "" /\
        Str.includes g1 "/" = false /\ Str.includes g2 "/" = false) /\
  (forall pre g1 c rest,
      g1 <> "" -> Str.includes g1 "/" = false -> c <> slash ->
      match_repo (pre ++ "github.com/" ++ g1 ++ "/" ++ String c rest)
      <> None).
Proof. split; [apply match_repo_sound | apply match_repo_complete]. Qed.

Lemma repo_url_pattern_witness :
  match_repo ("https://" ++ "github.com/" ++ "octocat" ++ "/"
              ++ String "H" "ello-World")
  <> None.
Proof.
  refine (proj2 repo_url_pattern "https://" "octocat" "H"%char "ello-World"
            _ _ _).
  - discriminate.
  - reflexivity.
  - discriminate.
Defined.

(** X7. An instance that the constructor sets up has a branch that is not
    empty, a size limit that is not zero, and an owner and a repository
    name without [/] that stand in the URL after [github.com/], the owner
    not empty. *)
Theorem constructor_invariants container repoUrl opts b :
  constructor container repoUrl opts = Ok (Some b) ->
  branch b <> "" /\
  maxFileSize b <> 0%Z /\
  owner b <> "" /\
  Str.includes (owner b) "/" = false /\
  Str.includes (repo b) "/" = false /\
  exists u pre post,
    repoUrl = Some u /\
    u = (pre ++ "github.com/" ++ owner b ++ "/" ++ repo b ++ post)%string.
Proof.
  unfold constructor. destruct (negb container); [discriminate|].
  destruct repoUrl as [u|]; [|discriminate].
  destruct (match_repo u) as [[g1 g2]|] eqn:Hm; [|discriminate].
  intros [= <-]. simpl.
  destruct (match_repo_sound _ _ _ Hm) as [pre [post [Hu [H1 [H2 [F1 F2]]]]]].
  destruct (strip_dot_git_prefix g2) as [suffix Hg2].
  split; [|split; [|split; [exact H1|split; [exact F1|split]]]].
  - destruct (opt_branch opts) as [x|]; [|discriminate].
    destruct (String.eqb_spec x ""); [discriminate | assumption].
  - destruct (opt_maxFileSize opts) as [m|]; [|discriminate].
    destruct (Z.eqb_spec m 0); [discriminate | assumption].
  - rewrite Hg2 in F2. now apply includes_slash_prefix in F2.
  - exists u, pre, (suffix ++ post)%string. split; [reflexivity|].
    rewrite Hu. rewrite Hg2 at 1.
    now rewrite string_app_assoc.
Qed.

Lemma constructor_invariants_witness :
  branch sample_browser <> "" /\
  maxFileSize sample_browser <> 0%Z /\
  owner sample_browser <> "" /\
  Str.includes (owner sample_browser) "/" = false /\
  Str.includes (repo sample_browser) "/" = false /\
  exists u pre post,
    Some "https://github.com/octocat/Hello-World.git" = Some u /\
    u = (pre ++ "github.com/" ++ owner sample_browser ++ "/"
         ++ repo sample_browser ++ post)%string.
Proof.
  exact (constructor_invariants true
           (Some "https://github.com/octocat/Hello-World.git") no_options
           sample_browser eq_refl).
Defined.

(** ** The empty pattern *)

Lemma includes_nil s : Str.includes s "" = true.
Proof. destruct s; reflexivity. Qed.

Lemma is_excluded_nil_pattern excludedPaths f :
  In "" excludedPaths -> is_excluded excludedPaths f = true.
Proof.
  intros H. unfold is_excluded. apply existsb_exists.
  exists "". split; [exact H | apply includes_nil].
Qed.

Lemma split_trailing sep s :
  In "" (Str.split sep (s ++ String sep "")).
Proof.
  pose proof (SplitFacts.last_split_after sep s "") as H. simpl in H.
  destruct (exists_last (StrFacts.split_not_nil sep (s ++ String sep "")))
    as [front [l E]].
  rewrite E in *. rewrite last_last in H. subst l.
  apply in_or_app. right. now left.
Qed.

(** X8. The empty pattern is in every path, so with it nothing is left: the
    tree is empty whatever the listing.  The handler passes it for a
    [data-excluded-paths] that ends in a comma. *)
Theorem empty_pattern_excludes_all :
  (forall excludedPaths files,
      In "" excludedPaths ->
      buildFileTree excludedPaths files = Ok empty_object) /\
  (forall container e b s files,
      getAttribute (attributes e) "data-excluded-paths"
      = Some (s ++ ",")%string ->
      auto_initialize container e = Ok (Some b) ->
      buildFileTree (excludedPaths b) files = Ok empty_object).
Proof.
  assert (H1 : forall excludedPaths files,
             In "" excludedPaths ->
             buildFileTree excludedPaths files = Ok empty_object).
  { intros excl files Hin.
    induction files as [|f files IH] using rev_ind; [reflexivity|].
    rewrite buildFileTree_snoc, IH. unfold add_file.
    now rewrite (is_excluded_nil_pattern _ _ Hin). }
  split; [exact H1|].
  intros container e b s files Ha Hi. apply H1.
  unfold auto_initialize in Hi. rewrite Ha in Hi.
  apply constructor_excludedPaths in Hi. rewrite Hi. simpl.
  destruct (String.eqb_spec (s ++ ",")%string "") as [E|_].
  - destruct s; discriminate.
  - apply (split_trailing ","%char s).
Qed.

(** ** The files of the tree, as a set *)

Lemma orderly_permutation excludedPaths files files' :
  Permutation files files' ->
  orderly excludedPaths files = true -> orderly excludedPaths files' = true.
Proof.
  intros HP. rewrite !orderly_spec. intros [Hw Hc].
  pose proof (retained_permutation excludedPaths _ _ HP) as HR.
  apply Permutation_sym in HR. split.
  - intros f Hf. apply Hw. eapply Permutation_in; eassumption.
  - intros f g Hf Hg. apply Hc; eapply Permutation_in; eassumption.
Qed.

(** On an orderly listing without two records of one path, the files of
    the tree are the records kept, each at the place of its path. *)
Lemma orderly_files excludedPaths files tree :
  NoDup (map path (retained excludedPaths files)) ->
  orderly excludedPaths files = true ->
  buildFileTree excludedPaths files = Ok tree ->
  forall ks p s z,
    node_at tree ks = Some (file p s z) <->
    exists f, In f (retained excludedPaths files) /\
              ks = parts_of f /\ file_of f = file p s z.
Proof.
  intros Hnd Hord Hb ks p s z. split.
  - intros Hn.
    destruct (buildFileTree_files_from _ _ _ Hb _ _ _ _ Hn)
      as [-> [_ [f [Hlat Hf]]]].
    destruct (latest_retained _ _ _ _ Hlat) as [Hin [Hex Hp]].
    exists f. split; [apply filter_In; now rewrite Hex|].
    split; [unfold parts_of; now rewrite Hp | exact Hf].
  - intros [f [Hin [-> Hf]]].
    destruct (orderly_build _ _ Hord) as [tree0 [Hb0 [_ Hall]]].
    assert (tree0 = tree) by congruence. subst tree0.
    destruct (Hall f Hin) as [g [Hlat Hn]].
    destruct (latest_retained _ _ _ _ Hlat) as [Hgin [Hgex Hgp]].
    assert (g = f).
    { apply (map_injective_on path (retained excludedPaths files));
        try assumption. apply filter_In. now rewrite Hgex. }
    subst g. now rewrite <- Hf.
Qed.

(** ** The rendered lists and the tree *)

Section Shown.

Variable localeCompare : string -> string -> Z.




End Shown.

(** X9. On an orderly listing without two records of one path, the order of
    the records does not matter for the files of the tree: two listings
    with the same records give trees with the same files at the same
    places. *)
Theorem file_set_order_independent excludedPaths files files' :
  Permutation files files' ->
  NoDup (map path (retained excludedPaths files)) ->
  orderly excludedPaths files = true ->
  exists tree tree',
    buildFileTree excludedPaths files = Ok tree /\
    buildFileTree excludedPaths files' = Ok tree' /\
    forall ks p s z,
      node_at tree ks = Some (file p s z) <->
      node_at tree' ks = Some (file p s z).
Proof.
  intros HP Hnd Hord.
  pose proof (orderly_permutation _ _ _ HP Hord) as Hord'.
  pose proof (retained_permutation excludedPaths _ _ HP) as HR.
  assert (Hnd' : NoDup (map path (retained excludedPaths files'))).
  { eapply Permutation_NoDup; [|exact Hnd]. now apply Permutation_map. }
  destruct (orderly_build _ _ Hord) as [tree [Hb _]].
  destruct (orderly_build _ _ Hord') as [tree' [Hb' _]].
  exists tree, tree'. split; [exact Hb|]. split; [exact Hb'|].
  intros ks p s z.
  rewrite (orderly_files _ _ _ Hnd Hord Hb),
    (orderly_files _ _ _ Hnd' Hord' Hb').
  split; intros [f [Hin H]]; exists f; (split; [|exact H]).
  - eapply Permutation_in; eassumption.
  - eapply Permutation_in; [apply Permutation_sym|]; eassumption.
Qed.

Lemma file_set_order_independent_witness :
  exists tree tree',
    buildFileTree default_excludedPaths sample_files = Ok tree /\
    buildFileTree default_excludedPaths (rev sample_files) = Ok tree' /\
    forall ks p s z,
      node_at tree ks = Some (file p s z) <->
      node_at tree' ks = Some (file p s z).
Proof.
  refine (file_set_order_independent default_excludedPaths sample_files
            (rev sample_files) (Permutation_rev _) _ eq_refl).
  vm_compute. repeat constructor; simpl; intuition discriminate.
Defined.



(** ** The handler on a page *)





(** ** [formatFileSize] *)

(** X12. Below 1024 the size is given in bytes; from there to 1024 * 1024 in KB
    and above (for the integers a number holds exactly) in MB, with one
    decimal, the tenths being the nearest to the exact quotient; the figure
    in KB goes from 1.0 up to 1024.0. *)
Theorem formatFileSize_rounding bytes :
  ((bytes < 1024 -> formatFileSize bytes = Z_to_string bytes ++ " B") /\
   (1024 <= bytes < 1024 * 1024 ->
    exists t,
      formatFileSize bytes
      = Z_to_string (t / 10) ++ "." ++ Z_to_string (t mod 10) ++ " KB" /\
      10 <= t <= 10240 /\ -512 <= 10 * bytes - 1024 * t < 512) /\
   (1024 * 1024 <= bytes < 2 ^ 53 ->
    exists t,
      formatFileSize bytes
      = Z_to_string (t / 10) ++ "." ++ Z_to_string (t mod 10) ++ " MB" /\
      10 <= t /\ -524288 <= 10 * bytes - 1048576 * t < 524288))%Z%string.
Proof.
  unfold formatFileSize, toFixed1. repeat split.
  - intros H. apply Z.ltb_lt in H. now rewrite H.
  - intros [H1 H2].
    assert (E1 : (bytes <? 1024)%Z = false) by (apply Z.ltb_ge; lia).
    assert (E2 : (bytes <? 1024 * 1024)%Z = true) by (apply Z.ltb_lt; lia).
    rewrite E1, E2.
    exists ((10 * bytes + 1024 / 2) / 1024)%Z.
    split; [now rewrite !string_app_assoc|].
    change (1024 / 2)%Z with 512%Z.
    pose proof (Z.div_mod (10 * bytes + 512) 1024 ltac:(lia)).
    pose proof (Z.mod_pos_bound (10 * bytes + 512) 1024 ltac:(lia)).
    lia.
  - intros [H1 _].
    assert (E1 : (bytes <? 1024)%Z = false) by (apply Z.ltb_ge; lia).
    assert (E2 : (bytes <? 1024 * 1024)%Z = false) by (apply Z.ltb_ge; lia).
    rewrite E1, E2.
    exists ((10 * bytes + 1024 * 1024 / 2) / (1024 * 1024))%Z.
    split; [now rewrite !string_app_assoc|].
    change (1024 * 1024 / 2)%Z with 524288%Z.
    change (1024 * 1024)%Z with 1048576%Z in *.
    pose proof (Z.div_mod (10 * bytes + 524288) 1048576 ltac:(lia)).
    pose proof (Z.mod_pos_bound (10 * bytes + 524288) 1048576 ltac:(lia)).
    lia.
Qed.

Lemma formatFileSize_rounding_witness :
  exists t,
    formatFileSize 1048575
    = (Z_to_string (t / 10) ++ "." ++ Z_to_string (t mod 10) ++ " KB")%string /\
    (10 <= t <= 10240 /\ -512 <= 10 * 1048575 - 1024 * t < 512)%Z.
Proof.
  refine (proj1 (proj2 (formatFileSize_rounding 1048575)) _). lia.
Defined.

(** ** [atob] in [fetchFileContent] *)

Lemma atob_whitespace a c b :
  Base64.is_ascii_whitespace c = true ->
  Base64.atob (a ++ String c b) = Base64.atob (a ++ b).
Proof.
  intros Hc. unfold Base64.atob.
  rewrite !list_ascii_app, !filter_app. simpl. now rewrite Hc.
Qed.

Lemma bytes_length : forall n vs,
  length vs <= n -> 4 * length (Base64.bytes vs) <= 3 * length vs.
Proof.
  induction n as [|n IH]; intros vs Hn.
  - destruct vs; [simpl; lia | simpl in Hn; lia].
  - destruct vs as [|a [|b [|c [|d rest]]]];
      cbn [Base64.bytes length] in *; try lia.
    specialize (IH rest ltac:(lia)). lia.
Qed.

Lemma sextets_length l vs : Base64.sextets l = Some vs -> length vs = length l.
Proof.
  revert vs. induction l as [|c l IH]; intros vs; simpl.
  - now intros [= <-].
  - destruct (Base64.sextet c); [|discriminate].
    destruct (Base64.sextets l) as [vs'|]; [|discriminate].
    intros [= <-]. simpl. now rewrite (IH vs').
Qed.

Lemma strip_padding_length l :
  length (Base64.strip_padding l) <= length l.
Proof.
  unfold Base64.strip_padding.
  destruct (Nat.eqb (Nat.modulo (length l) 4) 0); [|lia].
  pose proof (length_rev l) as HL.
  destruct (rev l) as [|c1 [|c2 r]]; simpl in HL; try lia.
  - destruct c1 as [[] [] [] [] [] [] [] []]; simpl; lia.
  - destruct c1 as [[] [] [] [] [] [] [] []]; try lia;
      destruct c2 as [[] [] [] [] [] [] [] []];
      cbn [rev]; rewrite ?length_app, ?length_rev; simpl; lia.
Qed.

(** X13. White space in the content of a base64 answer does not count, as in
    the line breaks of the API; and the text decoded has at most three
    quarters of the length of the content. *)
Theorem base64_content_decoding net net' p st statusText a c b :
  Base64.is_ascii_whitespace c = true ->
  contents net (length (sent st)) (contentUrl (this st) p)
  = Resolved true statusText (Some ("base64", (a ++ String c b)%string)) ->
  contents net' (length (sent st)) (contentUrl (this st) p)
  = Resolved true statusText (Some ("base64", (a ++ b)%string)) ->
  fst (fetchFileContent net p st) = fst (fetchFileContent net' p st) /\
  forall decoded,
    fst (fetchFileContent net p st) = Ok decoded ->
    4 * String.length decoded <= 3 * String.length (a ++ b).
Proof.
  intros Hc Hn Hn'. unfold fetchFileContent. rewrite Hn, Hn'. simpl.
  rewrite (atob_whitespace a c b Hc). split.
  - now destruct (Base64.atob (a ++ b)).
  - intros decoded. unfold Base64.atob.
    destruct (Nat.eqb _ 1); [discriminate|].
    destruct (Base64.sextets _) as [vs|] eqn:Hv; [|discriminate].
    simpl. intros [= <-].
    apply sextets_length in Hv.
    pose proof (bytes_length (length vs) vs (le_n _)) as Hb.
    pose proof (strip_padding_length
                  (filter (fun c0 => negb (Base64.is_ascii_whitespace c0))
                     (list_ascii_of_string (a ++ b)))) as Hp.
    pose proof (filter_length_le
                  (fun c0 => negb (Base64.is_ascii_whitespace c0))
                  (list_ascii_of_string (a ++ b))) as Hfl.
    assert (Hlen : forall s, length (list_ascii_of_string s) = String.length s)
      by (induction s; simpl; congruence).
    assert (Hlen' : forall l, String.length (string_of_list_ascii l) = length l)
      by (induction l; simpl; congruence).
    rewrite Hlen in Hfl. rewrite Hlen'. lia.
Qed.

Lemma lookup_key k table v :
  lookup k table = Some v -> In k (map fst table).
Proof.
  induction table as [|[k0 v0] table IH]; simpl; [discriminate|].
  destruct (String.eqb_spec k k0) as [->|_]; [now left|].
  intros H. right. now apply IH.
Qed.

Lemma lookup_value k table v :
  lookup k table = Some v -> In v (map snd table).
Proof.
  induction table as [|[k0 v0] table IH]; simpl; [discriminate|].
  destruct (String.eqb k k0).
  - intros [= ->]. now left.
  - intros H. right. now apply IH.
Qed.

(** X14. [escapeHtml] never gives [<] or [>]: the content of a file cannot
    open or close an element in the viewer. *)
Theorem escapeHtml_no_markup text :
  Forall (fun c => c <> "<"%char /\ c <> ">"%char)
    (list_ascii_of_string (escapeHtml text)).
Proof. apply Forall_forall. intros c. apply escapeHtml_chars. Qed.

(** X15. [escapeHtml] loses nothing: two different texts have different
    escaped forms, also when one is the escaped form of the other. *)
Theorem escapeHtml_one_to_one a b :
  a <> b -> escapeHtml a <> escapeHtml b.
Proof. intros Hne H. apply Hne. now apply escapeHtml_injective. Qed.

Lemma escapeHtml_one_to_one_witness : escapeHtml "<" <> escapeHtml "&lt;".
Proof.
  refine (escapeHtml_one_to_one "<" "&lt;" _). discriminate.
Defined.

(** X16. The language of a file is decided by what follows the last dot of its
    name, whatever the case of the letters and whatever the folders; a
    name without a dot counts as its own extension. *)
Theorem language_by_extension pre ext :
  Str.includes ext "." = false ->
  Str.includes ext "/" = false ->
  language_of (pre ++ "." ++ ext)%string = detectLanguage ext /\
  language_of (pre ++ "/" ++ ext)%string = detectLanguage ext /\
  detectLanguage (toLowerCase ext) = detectLanguage ext.
Proof.
  intros Hd Hs. unfold language_of.
  rewrite (extension_after_dot pre ext Hd Hs),
    (extension_without_dot pre ext Hd Hs).
  repeat split. unfold detectLanguage. now rewrite toLowerCase_idempotent.
Qed.

Lemma language_by_extension_witness :
  language_of ("src/v1.2/App" ++ "." ++ "JSX") = detectLanguage "JSX" /\
  language_of ("src/v1.2/App" ++ "/" ++ "JSX") = detectLanguage "JSX" /\
  detectLanguage (toLowerCase "JSX") = detectLanguage "JSX".
Proof.
  exact (language_by_extension "src/v1.2/App" "JSX" eq_refl eq_refl).
Defined.

(** X17. [detectLanguage] gives the name of a language of its table or [text],
    except for the extensions that [languageMap] inherits from
    [Object.prototype], in any case of letters: for those it gives the
    inherited function or object, not a string. *)
Theorem detectLanguage_result extension :
  (plain_name (toLowerCase extension) = true ->
   exists language,
     detectLanguage extension = VStr language /\
     In language ("text" :: map snd languageMap)) /\
  (plain_name (toLowerCase extension) = false ->
   detectLanguage extension = VBuiltin).
Proof.
  unfold detectLanguage, plain_name.
  destruct (lookup (toLowerCase extension) languageMap) as [language|] eqn:Hl.
  - split.
    + intros _. exists language. split; [reflexivity|].
      right. eapply lookup_value. exact Hl.
    + apply lookup_key in Hl. simpl in Hl.
      repeat (destruct Hl as [<-|Hl]; [discriminate|]). contradiction.
  - rewrite <- negb_orb.
    destruct (String.eqb (toLowerCase extension) proto_key
              || existsb (String.eqb (toLowerCase extension))
                   object_prototype_names); simpl; split;
      try discriminate; try reflexivity.
    intros _. exists "text". split; [reflexivity | now left].
Qed.

Lemma detectLanguage_result_witness :
  detectLanguage "Constructor" = VBuiltin.
Proof.
  exact (proj2 (detectLanguage_result "Constructor") eq_refl).
Defined.

Lemma only_blobs_become_files_witness :
  exists n u statusText listing,
    trees sample_net n u = Resolved true statusText (Some listing) /\
    forall ks p s z,
      node_at sample_tree ks = Some (file p s z) ->
      exists f, In f listing /\ type f = "blob" /\
                path f = p /\ sha f = s /\ size f = z.
Proof.
  exact (only_blobs_become_files sample_net sample_state
           (filter (fun item => String.eqb (type item) "blob") sample_listing)
           sample_tree eq_refl eq_refl).
Defined.

Lemma empty_pattern_excludes_all_witness :
  buildFileTree ["node_modules"; ""] sample_files = Ok empty_object.
Proof.
  refine (proj1 empty_pattern_excludes_all ["node_modules"; ""] sample_files _).
  simpl. now right; left.
Defined.

Lemma base64_content_decoding_witness :
  fst (fetchFileContent wrapped_net "README.md" sample_state)
  = fst (fetchFileContent sample_net "README.md" sample_state) /\
  forall decoded,
    fst (fetchFileContent wrapped_net "README.md" sample_state) = Ok decoded ->
    4 * String.length decoded <= 3 * String.length ("aGVs" ++ "bG8=")%string.
Proof.
  exact (base64_content_decoding wrapped_net sample_net "README.md"
           sample_state "OK" "aGVs" "010"%char "bG8=" eq_refl eq_refl eq_refl).
Defined.

Section ShownAll.

Variable localeCompare : string -> string -> Z.




End ShownAll.


